(** * Chat agent worker (src/server.ts): webhook ingestion, tool-call
      continuation, chat streaming, scheduled tasks and the fetch entry point.

    The agent class of server.ts extends a vendor base class.  What the file
    itself contains is embedded here: [onStart], [onRequest], [handleEvent],
    [executeTask], the options handed to the streamer in [onChatMessage] and
    the worker's [fetch].  State is threaded explicitly through a small
    state-and-exception monad, since every callback reads and writes the
    agent's SQL table and may throw. *)

From Stdlib Require Import Ascii String DecimalString List Arith Lia Bool.
From stdpp Require Import base option list strings gmap.

Set Warnings "-register-all".
Local Open Scope string_scope.
Local Open Scope list_scope.

(** ** JSON texts

    [onRequest] hands the raw body to the platform's [JSON.parse].  The
    grammar below is the one of ECMA-404: a value between optional white
    space, with objects, arrays, strings, numbers and the three literals.

    What is kept of a text that parses is its syntax tree: a number as its
    lexeme, an object with all its members in the order written, a string
    with its four-digit escapes as written.  The JavaScript value that
    [JSON.parse] returns is determined by the tree (the lexeme read as a
    double, the last of several members of one name, the escapes decoded), so
    whatever is a function of the value is a function of the tree. *)
Module Json.

Inductive json : Type :=
| JNull
| JBool (b : bool)
| JNumber (lexeme : string)
| JString (s : string)
| JArray (items : list json)
| JObject (members : list (string * json)).

(** Result of a sub-parser: a value and the unread input, a syntax error, or
    the recursion budget ran out (shown below never to happen). *)
Inductive presult (A : Type) : Type :=
| POk (a : A) (rest : list ascii)
| PSyntax
| PFuel.
Arguments POk {A} a rest.
Arguments PSyntax {A}.
Arguments PFuel {A}.

Definition is_ws (c : ascii) : bool :=
  match c with
  | " "%char | "009"%char | "010"%char | "013"%char => true
  | _ => false
  end.

Fixpoint skip_ws (s : list ascii) : list ascii :=
  match s with
  | c :: r => if is_ws c then skip_ws r else s
  | [] => []
  end.

Definition is_digit (c : ascii) : bool :=
  let n := nat_of_ascii c in ((48 <=? n) && (n <=? 57))%nat.

Definition is_hex (c : ascii) : bool :=
  let n := nat_of_ascii c in
  (is_digit c || ((65 <=? n) && (n <=? 70)) || ((97 <=? n) && (n <=? 102)))%nat.

(** The quotation mark, U+0022. *)
Definition dquote : ascii := ascii_of_nat 34.

Fixpoint take_digits (s : list ascii) : list ascii * list ascii :=
  match s with
  | c :: r => if is_digit c then let '(d, r') := take_digits r in (c :: d, r')
              else ([], s)
  | [] => ([], [])
  end.

(** The character a one-letter escape stands for. *)
Definition unescape (e : ascii) : option ascii :=
  if Ascii.eqb e dquote || Ascii.eqb e "\"%char || Ascii.eqb e "/"%char
  then Some e
  else if Ascii.eqb e "b"%char then Some "008"%char
  else if Ascii.eqb e "f"%char then Some "012"%char
  else if Ascii.eqb e "n"%char then Some "010"%char
  else if Ascii.eqb e "r"%char then Some "013"%char
  else if Ascii.eqb e "t"%char then Some "009"%char
  else None.

(** The characters of a string after its opening quote, up to the closing
    one.  A [\uXXXX] escape is kept as written; the other escapes are
    decoded.  Control characters may not appear unescaped. *)
Fixpoint parse_chars (s acc : list ascii) : presult (list ascii) :=
  match s with
  | [] => PSyntax
  | c :: r =>
    if Ascii.eqb c dquote then POk (rev acc) r
    else if Ascii.eqb c "\"%char then
      match r with
      | [] => PSyntax
      | e :: r' =>
        match unescape e with
        | Some d => parse_chars r' (d :: acc)
        | None =>
          if Ascii.eqb e "u"%char then
            match r' with
            | h1 :: h2 :: h3 :: h4 :: r'' =>
              if is_hex h1 && is_hex h2 && is_hex h3 && is_hex h4
              then parse_chars r'' (h4 :: h3 :: h2 :: h1 :: e :: c :: acc)
              else PSyntax
            | _ => PSyntax
            end
          else PSyntax
        end
      end
    else if (nat_of_ascii c <? 32)%nat then PSyntax
    else parse_chars r (c :: acc)
  end.

Definition parse_string (s : list ascii) : presult string :=
  match parse_chars s [] with
  | POk cs r => POk (string_of_list_ascii cs) r
  | PSyntax => PSyntax
  | PFuel => PFuel
  end.

(** number = [-] int [frac] [exp] *)
Definition parse_int (s : list ascii) : presult (list ascii) :=
  match s with
  | c :: r =>
    if Ascii.eqb c "0"%char then POk [c] r
    else if is_digit c then let '(d, r') := take_digits r in POk (c :: d) r'
    else PSyntax
  | [] => PSyntax
  end.

Definition parse_frac (s : list ascii) : presult (list ascii) :=
  match s with
  | "."%char :: r =>
    match take_digits r with
    | ([], _) => PSyntax
    | (d, r') => POk ("."%char :: d) r'
    end
  | _ => POk [] s
  end.

Definition parse_exp (s : list ascii) : presult (list ascii) :=
  match s with
  | e :: r =>
    if Ascii.eqb e "e"%char || Ascii.eqb e "E"%char then
      let '(sign, r1) :=
        match r with
        | c :: r1 => if Ascii.eqb c "+"%char || Ascii.eqb c "-"%char
                     then ([c], r1) else ([], r)
        | [] => ([], r)
        end in
      match take_digits r1 with
      | ([], _) => PSyntax
      | (d, r') => POk (e :: sign ++ d) r'
      end
    else POk [] s
  | [] => POk [] s
  end.

Definition parse_number (s : list ascii) : presult string :=
  let '(neg, s1) :=
    match s with
    | "-"%char :: r => (["-"%char], r)
    | _ => ([], s)
    end in
  match parse_int s1 with
  | POk i r1 =>
    match parse_frac r1 with
    | POk f r2 =>
      match parse_exp r2 with
      | POk e r3 => POk (string_of_list_ascii (neg ++ i ++ f ++ e)) r3
      | _ => PSyntax
      end
    | _ => PSyntax
    end
  | _ => PSyntax
  end.

Fixpoint strip_prefix (p s : list ascii) : option (list ascii) :=
  match p, s with
  | [], _ => Some s
  | a :: p', b :: s' => if Ascii.eqb a b then strip_prefix p' s' else None
  | _ :: _, [] => None
  end.

Definition parse_literal (word : string) (v : json) (s : list ascii)
  : presult json :=
  match strip_prefix (list_ascii_of_string word) s with
  | Some r => POk v r
  | None => PSyntax
  end.

(** One value, the cursor standing on its first character.  [parse_elements]
    and [parse_members] read what follows the opening bracket or brace of a
    non-empty array or object. *)
Fixpoint parse_value (n : nat) (s : list ascii) {struct n} : presult json :=
  match n with
  | 0 => PFuel
  | S n' =>
    match s with
    | [] => PSyntax
    | c :: r =>
      if Ascii.eqb c "{"%char then
        match skip_ws r with
        | [] => PSyntax
        | c1 :: r' =>
          if Ascii.eqb c1 "}"%char then POk (JObject []) r'
          else parse_members n' (c1 :: r') []
        end
      else if Ascii.eqb c "["%char then
        match skip_ws r with
        | [] => PSyntax
        | c1 :: r' =>
          if Ascii.eqb c1 "]"%char then POk (JArray []) r'
          else parse_elements n' (c1 :: r') []
        end
      else if Ascii.eqb c dquote then
        match parse_string r with
        | POk str r' => POk (JString str) r'
        | PSyntax => PSyntax
        | PFuel => PFuel
        end
      else if Ascii.eqb c "t"%char then parse_literal "true" (JBool true) s
      else if Ascii.eqb c "f"%char then parse_literal "false" (JBool false) s
      else if Ascii.eqb c "n"%char then parse_literal "null" JNull s
      else
        match parse_number s with
        | POk lexeme r' => POk (JNumber lexeme) r'
        | PSyntax => PSyntax
        | PFuel => PFuel
        end
    end
  end
with parse_elements (n : nat) (s : list ascii) (acc : list json) {struct n}
  : presult json :=
  match n with
  | 0 => PFuel
  | S n' =>
    match parse_value n' s with
    | POk v r =>
      match skip_ws r with
      | [] => PSyntax
      | c :: r' =>
        if Ascii.eqb c ","%char then parse_elements n' (skip_ws r') (v :: acc)
        else if Ascii.eqb c "]"%char then POk (JArray (rev (v :: acc))) r'
        else PSyntax
      end
    | PSyntax => PSyntax
    | PFuel => PFuel
    end
  end
with parse_members (n : nat) (s : list ascii) (acc : list (string * json))
  {struct n} : presult json :=
  match n with
  | 0 => PFuel
  | S n' =>
    match s with
    | [] => PSyntax
    | c :: r =>
      if Ascii.eqb c dquote then
        match parse_string r with
        | POk key r1 =>
          match skip_ws r1 with
          | [] => PSyntax
          | c1 :: r2 =>
            if Ascii.eqb c1 ":"%char then
              match parse_value n' (skip_ws r2) with
              | POk v r3 =>
                match skip_ws r3 with
                | [] => PSyntax
                | c2 :: r4 =>
                  if Ascii.eqb c2 ","%char
                  then parse_members n' (skip_ws r4) ((key, v) :: acc)
                  else if Ascii.eqb c2 "}"%char
                  then POk (JObject (rev ((key, v) :: acc))) r4
                  else PSyntax
                end
              | PSyntax => PSyntax
              | PFuel => PFuel
              end
            else PSyntax
          end
        | PSyntax => PSyntax
        | PFuel => PFuel
        end
      else PSyntax
    end
  end.

(** The recursion budget of a text: twice its length is more than the calls
    any text of that length can cause. *)
Definition budget (s : list ascii) : nat := 2 * length s + 2.

Definition parse_text (s : list ascii) : presult json :=
  let s0 := skip_ws s in
  match parse_value (budget s0) s0 with
  | POk v r => match skip_ws r with [] => POk v [] | _ => PSyntax end
  | PSyntax => PSyntax
  | PFuel => PFuel
  end.

(** [JSON.parse(text)]: [None] stands for the SyntaxError it throws, and a
    tree for the value the text denotes. *)
Definition JSON_parse (text : string) : option json :=
  match parse_text (list_ascii_of_string text) with
  | POk v _ => Some v
  | _ => None
  end.

End Json.

(** ** Completions

    A callback of the agent either returns or throws; both leave a state
    behind. *)
Module Runtime.

Inductive exn : Type :=
| SyntaxError (message : string)
| SqlError (message : string)
| Rejected (reason : string).

Inductive completion (A : Type) : Type :=
| Normal (a : A)
| Throw (e : exn).
Arguments Normal {A} a.
Arguments Throw {A} e.

(** HTTP messages as far as server.ts looks at them.  [pathname] is the
    pathname of [new URL(request.url)]; a Headers object holds one value per
    lower-cased name. *)
Record Request : Type := mkRequest {
  method : string;
  pathname : string;
  headers : list (string * string);
  body : string
}.

Inductive ResponseBody : Type :=
| Text (s : string)
| JsonBody (v : Json.json).

Record Response : Type := mkResponse {
  content : ResponseBody;
  status : nat
}.

Definition lower (c : ascii) : ascii :=
  let n := nat_of_ascii c in
  if ((65 <=? n) && (n <=? 90))%nat then ascii_of_nat (n + 32) else c.

Fixpoint lowercase (s : string) : string :=
  match s with
  | EmptyString => EmptyString
  | String c r => String (lower c) (lowercase r)
  end.

(** [headers.get(name)]: the name is matched without regard to case; [None]
    is JavaScript's [null]. *)
Fixpoint headers_get (name : string) (hs : list (string * string))
  : option string :=
  match hs with
  | [] => None
  | (k, v) :: r =>
    if String.eqb (lowercase k) (lowercase name) then Some v
    else headers_get name r
  end.

End Runtime.

(** ** The events table

    [onStart] declares the table; the constraints of its columns are what an
    INSERT is checked against. *)
Module Sql.
Import Runtime.

(** The columns after [id], in the order of the CREATE TABLE statement.  SQL
    NULL is [None]. *)
Record Columns : Type := mkColumns {
  type : option string;
  action : option string;
  title : option string;
  description : option string;
  url : option string;
  actor : option string;
  payload : option string;
  timestamp : option string
}.

Record Event : Type := mkEvent {
  id : string;
  columns : Columns
}.

(** The database of one agent: the events table once created, and whether
    the index on its timestamp exists. *)
Record Db : Type := mkDb {
  events : option (list Event);
  idx_events_timestamp : bool
}.

(** type, title and timestamp are declared NOT NULL. *)
Definition not_null_ok (c : Columns) : bool :=
  match type c, title c, timestamp c with
  | Some _, Some _, Some _ => true
  | _, _, _ => false
  end.

(** [SELECT id FROM events WHERE id = ?] *)
Definition select_id (key : string) (rows : list Event) : list string :=
  map id (List.filter (fun e => String.eqb (id e) key) rows).

(** id is the PRIMARY KEY: a row whose id is already in the table is
    refused. *)
Definition primary_key_free (key : string) (rows : list Event) : bool :=
  negb (existsb (fun e => String.eqb (id e) key) rows).

Definition not_null_failed : string := "NOT NULL constraint failed".

Definition unique_failed : string := "UNIQUE constraint failed: events.id".

(** A plain INSERT of a row: the row is appended when the constraints hold,
    and the statement fails otherwise, leaving the table as it was. *)
Definition insert (row : Event) (rows : list Event)
  : completion (list Event) :=
  if negb (not_null_ok (columns row))
  then Throw (SqlError not_null_failed)
  else if negb (primary_key_free (id row) rows)
  then Throw (SqlError unique_failed)
  else Normal (rows ++ [row]).

(** *** Statements as [this.sql] sends them

    The tagged template joins the pieces of its text with a parameter mark
    for each substitution and has SQLite prepare the result.  A statement
    that cannot be prepared throws, and nothing of it is run. *)

(** The text of the INSERT of [handleEvent], with its one substitution. *)
Definition insert_text : string :=
  "INSERT INTO events (id, ...) VALUES (?, ...)".

(** A name: a letter or an underscore, then letters, digits and
    underscores. *)
Definition is_name_start (c : ascii) : bool :=
  let n := nat_of_ascii c in
  (((65 <=? n) && (n <=? 90)) || ((97 <=? n) && (n <=? 122)) || (n =? 95))%nat.

Definition is_name_char (c : ascii) : bool :=
  let n := nat_of_ascii c in
  is_name_start c || ((48 <=? n) && (n <=? 57))%nat.

Definition is_identifier (s : string) : bool :=
  match s with
  | EmptyString => false
  | String c r => is_name_start c && forallb is_name_char (list_ascii_of_string r)
  end.

Fixpoint after_open (s : list ascii) : list ascii :=
  match s with
  | [] => []
  | c :: r => if Ascii.eqb c "("%char then r else after_open r
  end.

Fixpoint upto_close (s : list ascii) : list ascii :=
  match s with
  | [] => []
  | c :: r => if Ascii.eqb c ")"%char then [] else c :: upto_close r
  end.

Fixpoint drop_blanks (s : list ascii) : list ascii :=
  match s with
  | c :: r => if Ascii.eqb c " "%char then drop_blanks r else s
  | [] => []
  end.

Definition trim (s : list ascii) : list ascii :=
  rev (drop_blanks (rev (drop_blanks s))).

Fixpoint split_commas (s current : list ascii) : list (list ascii) :=
  match s with
  | [] => [rev current]
  | c :: r =>
    if Ascii.eqb c ","%char then rev current :: split_commas r []
    else split_commas r (c :: current)
  end.

(** The column list of an INSERT: what stands, between commas, inside the
    first pair of parentheses of its text. *)
Definition column_names (text : string) : list string :=
  map (fun item => string_of_list_ascii (trim item))
      (split_commas (upto_close (after_open (list_ascii_of_string text))) []).

(** SQLite's complaint about the first dot of the column list. *)
Definition syntax_error : string :=
  "near " ++ String Json.dquote ("." ++ String Json.dquote ": syntax error").

(** Preparing an INSERT: every entry of its column list has to be a name. *)
Definition prepare (text : string) : completion unit :=
  if forallb is_identifier (column_names text) then Normal tt
  else Throw (SqlError syntax_error).

(** What is bound to a column by position. *)
Fixpoint bound (name : string) (names bindings : list string)
  : option string :=
  match names, bindings with
  | n :: names', b :: bindings' =>
    if String.eqb n name then Some b else bound name names' bindings'
  | _, _ => None
  end.

(** The row a prepared INSERT describes: each column named in the list has
    the value bound at its position, the others are NULL. *)
Definition row_of (names bindings : list string) : Event :=
  mkEvent (default EmptyString (bound "id" names bindings))
          (mkColumns (bound "type" names bindings)
                     (bound "action" names bindings)
                     (bound "title" names bindings)
                     (bound "description" names bindings)
                     (bound "url" names bindings)
                     (bound "actor" names bindings)
                     (bound "payload" names bindings)
                     (bound "timestamp" names bindings)).

(** Number of rows stored under a key. *)
Definition count_id (key : string) (rows : list Event) : nat :=
  length (select_id key rows).

(** What the PRIMARY KEY declaration maintains: no two rows share an id. *)
Definition primary_key_unique (rows : list Event) : Prop :=
  NoDup (map id rows).

Definition keys_unique (d : Db) : Prop :=
  match events d with
  | Some rows => primary_key_unique rows
  | None => True
  end.

End Sql.

(** ** Webhook ingestion: onStart, onRequest, handleEvent *)
Module Ingest.
Import Json Runtime Sql.

Section Agent.

(** What the handlers use and server.ts does not define: the state of the
    world outside the agent that payload processing acts on; the identifier
    [eventId], free in [handleEvent]; and the methods [verifySignature] and
    [processPayload] of [this]. *)
Variable W : Type.
Variable eventId : string.
Variable verifySignature : string -> option string -> bool.
Variable processPayload : json -> W -> completion unit * W.

Record State : Type := mkState {
  db : Db;
  console : list string;
  world : W
}.

Definition M (A : Type) : Type := State -> completion A * State.

Definition ret {A} (a : A) : M A := fun s => (Normal a, s).

Definition throw {A} (e : exn) : M A := fun s => (Throw e, s).

Definition bind {A B} (m : M A) (k : A -> M B) : M B :=
  fun s =>
    match m s with
    | (Normal a, s') => k a s'
    | (Throw e, s') => (Throw e, s')
    end.

Notation "'let!' x ':=' m 'in' k" := (bind m (fun x => k))
  (at level 10, x name, m at level 100, k at level 200).
Notation "'do!' m 'in' k" := (bind m (fun _ => k))
  (at level 10, m at level 100, k at level 200).

Definition set_events (rows : list Event) (s : State) : State :=
  mkState (mkDb (Some rows) (idx_events_timestamp (db s)))
          (console s) (world s).

Definition set_world (w : W) (s : State) : State :=
  mkState (db s) (console s) w.

(** [console.log] *)
Definition console_log (line : string) : M unit :=
  fun s => (Normal tt, mkState (db s) (console s ++ [line]) (world s)).

(** A statement on a table that was never created fails. *)
Definition with_events {A} (f : list Event -> M A) : M A :=
  fun s =>
    match events (db s) with
    | Some rows => f rows s
    | None => (Throw (SqlError "no such table: events"), s)
    end.

Definition sql_select_id (key : string) : M (list string) :=
  with_events (fun rows => ret (select_id key rows)).

(** An INSERT given as text and bindings: the text is prepared first; only
    a prepared statement reaches the table. *)
Definition sql_insert (text : string) (bindings : list string) : M unit :=
  match prepare text with
  | Throw e => throw e
  | Normal _ =>
    with_events (fun rows s =>
      match insert (row_of (column_names text) bindings) rows with
      | Normal rows' => (Normal tt, set_events rows' s)
      | Throw e => (Throw e, s)
      end)
  end.

(** [await this.processPayload(payload)]: a rejection is rethrown. *)
Definition await_processPayload (payload : json) : M unit :=
  fun s =>
    let '(r, w) := processPayload payload (world s) in (r, set_world w s).

(** CREATE TABLE IF NOT EXISTS events, CREATE INDEX IF NOT EXISTS
    idx_events_timestamp. *)
Definition onStart : M unit :=
  fun s =>
    let rows := match events (db s) with Some rows => rows | None => [] end in
    (Normal tt, mkState (mkDb (Some rows) true) (console s) (world s)).

Definition skip_line : string :=
  "Event " ++ eventId ++ " already processed, skipping".

(** [type] is not used by the body, as in the source. *)
Definition handleEvent (type : option string) (payload : json) : M unit :=
  let! existing := sql_select_id eventId in
  if (0 <? length existing)%nat then
    console_log skip_line
  else
    do! await_processPayload payload in
    sql_insert insert_text [eventId].

Definition onRequest (request : Request) : M Response :=
  if negb (String.eqb (method request) "POST") then
    ret (mkResponse (Text "Method not allowed") 405)
  else
    let eventType := headers_get "X-Event-Type" (headers request) in
    let signature := headers_get "X-Signature" (headers request) in
    let body := body request in
    if negb (verifySignature body signature) then
      ret (mkResponse (Text "Invalid signature") 401)
    else
      match JSON_parse body with
      | None => throw (SyntaxError "JSON.parse")
      | Some payload =>
        do! handleEvent eventType payload in
        ret (mkResponse (Text "OK") 200)
      end.

(** *** Deliveries in flight

    [handleEvent] gives control away at its one [await]; the SELECT with the
    test on its result runs before that, and the INSERT after.  A delivery is
    therefore at one of three points, or has completed. *)
Inductive pc : Type :=
| AtSelect
| AtProcess
| AtInsert
| Done (r : completion unit).

Record Delivery : Type := mkDelivery {
  d_type : option string;
  d_payload : json;
  d_pc : pc
}.

Definition at_pc (d : Delivery) (p : pc) : Delivery :=
  mkDelivery (d_type d) (d_payload d) p.

(** One uninterrupted stretch of [handleEvent] for the delivery [d]. *)
Definition step (d : Delivery) (s : State) : Delivery * State :=
  match d_pc d with
  | AtSelect =>
    match sql_select_id eventId s with
    | (Normal existing, s1) =>
      if (0 <? length existing)%nat then
        let '(r, s2) := console_log skip_line s1 in (at_pc d (Done r), s2)
      else (at_pc d AtProcess, s1)
    | (Throw e, s1) => (at_pc d (Done (Throw e)), s1)
    end
  | AtProcess =>
    match await_processPayload (d_payload d) s with
    | (Normal _, s1) => (at_pc d AtInsert, s1)
    | (Throw e, s1) => (at_pc d (Done (Throw e)), s1)
    end
  | AtInsert =>
    let '(r, s1) := sql_insert insert_text [eventId] s in
    (at_pc d (Done r), s1)
  | Done _ => (d, s)
  end.

(** The deliveries of one agent share its state; a schedule names, turn by
    turn, the delivery that runs its next stretch. *)
Fixpoint run (schedule : list nat) (pool : list Delivery) (s : State)
  : list Delivery * State :=
  match schedule with
  | [] => (pool, s)
  | i :: rest =>
    match pool !! i with
    | Some d => let '(d', s') := step d s in run rest (<[i := d']> pool) s'
    | None => run rest pool s
    end
  end.

Definition arrival (type : option string) (payload : json) : Delivery :=
  mkDelivery type payload AtSelect.

Definition accepted_or_skipped (d : Delivery) : bool :=
  match d_pc d with Done (Normal _) => true | _ => false end.

End Agent.

Arguments mkState {W} db console world.
Arguments db {W} s.
Arguments console {W} s.
Arguments world {W} s.
Arguments set_events {W} rows s.
Arguments set_world {W} w s.

End Ingest.

(** ** Signature Verifier *)
Module Verifier.

Definition hex_digit (n : nat) : ascii :=
  if (n <? 10)%nat then ascii_of_nat (48 + n) else ascii_of_nat (87 + n).

(** Lower-case hexadecimal encoding, two digits a byte. *)
Fixpoint hex (bytes : string) : string :=
  match bytes with
  | EmptyString => EmptyString
  | String c r =>
    let n := nat_of_ascii c in
    String (hex_digit (n / 16)) (String (hex_digit (n mod 16)) (hex r))
  end.

(** Constant-time comparison: strings of different lengths are unequal; for
    equal lengths every position is looked at and the differences are
    accumulated. *)
Fixpoint diff_bits (a b : string) (acc : N) : N :=
  match a, b with
  | String x a', String y b' =>
    diff_bits a' b' (N.lor acc (N.lxor (N_of_ascii x) (N_of_ascii y)))
  | _, _ => acc
  end.

Definition ct_eq (a b : string) : bool :=
  (String.length a =? String.length b)%nat && (diff_bits a b 0 =? 0)%N.



Section Mac.

(** The keyed message authentication code and the pre-shared secret. *)
Variable mac : string -> string -> string.
Variable secret : string.

(** The signature a trusted sender attaches to a body. *)
Definition sign (rawBody : string) : string := hex (mac secret rawBody).

(** Modelled from the spec: [verifySignature], called by [onRequest] and
    defined nowhere in server.ts.  The spec's [verify] computes the MAC of
    the raw body under the secret, encodes it like the provided signature and
    compares in constant time; an absent signature gives false. *)
Definition verify (rawBody : string) (providedSignature : option string)
  : bool :=
  match providedSignature with
  | None => false
  | Some provided => ct_eq (sign rawBody) provided
  end.

End Mac.

End Verifier.

(** ** The conversation: turns, tool-call continuation, streaming, tasks *)
Module Chat.
Import Runtime.

Inductive Role : Type := user | assistant | tool.

Inductive Part : Type :=
| TextPart (text : string)
| ToolCallPart (toolCallId toolName input : string)
| ToolResultPart (toolCallId output : string) (isError : bool).

Record Metadata : Type := mkMetadata { createdAt : nat }.

Record UIMessage : Type := mkUIMessage {
  id : string;
  role : Role;
  parts : list Part;
  metadata : option Metadata
}.

(** The session of the base class: the saved conversation history. *)
Record Session : Type := mkSession { messages : list UIMessage }.

(** Modelled from the spec: [this.saveMessages(list)] of the vendor base
    class.  The session owns the history; saving stores the list it is
    given as that history. *)
Definition saveMessages (list : list UIMessage) (_ : Session) : Session :=
  mkSession list.

(** [fresh] is what [generateId()] returns and [now] what [new Date()]
    gives at the call. *)
Definition executeTask {Schedule : Type} (description : string)
  (_task : Schedule) (fresh : string) (now : nat) (this : Session)
  : Session :=
  saveMessages
    (messages this ++
     [mkUIMessage fresh user
        [TextPart ("Running scheduled task: " ++ description)]
        (Some (mkMetadata now))])
    this.

Definition is_result_for (callId : string) (p : Part) : bool :=
  match p with
  | ToolResultPart c _ _ => String.eqb c callId
  | _ => false
  end.

(** Whether some turn of the history carries a tool-result for the call. *)
Definition has_result (history : list UIMessage) (callId : string) : bool :=
  existsb (fun m => existsb (is_result_for callId) (parts m)) history.



Definition set_parts (m : UIMessage) (ps : list Part) : UIMessage :=
  mkUIMessage (id m) (role m) ps (metadata m).


(** The last element of a list rewritten, the earlier ones kept. *)
Fixpoint map_last {A : Type} (f : A -> A) (l : list A) : list A :=
  match l with
  | [] => []
  | x :: r =>
    match r with
    | [] => [f x]
    | _ :: _ => x :: map_last f r
    end
  end.

Definition error_text (e : exn) : string :=
  match e with
  | SyntaxError m | SqlError m | Rejected m => m
  end.

Section Continuation.

(** The execution handlers registered by tool name ([executions] of
    tools.ts, handed to [processToolCalls]); a handler returns or fails. *)
Variable executions : string -> option (string -> completion string).

Definition resolve_part (history : list UIMessage) (p : Part) : list Part :=
  match p with
  | ToolCallPart c name input =>
    if has_result history c then [p]
    else
      match executions name with
      | Some handler =>
        match handler input with
        | Normal output => [p; ToolResultPart c output false]
        | Throw e => [p; ToolResultPart c (error_text e) true]
        end
      | None => []
      end
  | _ => [p]
  end.

(** Modelled from the spec: [cleanupMessages] and [processToolCalls] of
    utils.ts, which server.ts imports and applies one after the other to
    [this.messages] before the model is called.  The spec gives the contract
    of the two together as [resolvePending]: the tail of the history, its
    last turn, is scanned for tool-call parts without a matching tool-result
    part; such a part is resolved by the handler registered for its tool
    name, the result (or the handler's failure, as an error result) being
    appended as a tool-result part, and is stripped from the turn when no
    handler is registered.  The earlier turns are returned as they are, in a
    new sequence. *)
Definition resolvePending (history : list UIMessage) : list UIMessage :=
  map_last (fun m => set_parts m (flat_map (resolve_part history) (parts m)))
           history.

End Continuation.

(** *** Chat Response Streamer *)
Inductive OutputChunk : Type :=
| StartStep
| TextDelta (delta : string)
| ToolCallEvent (toolCallId toolName input : string)
| ToolResultEvent (toolCallId output : string) (isError : bool)
| Finish
| ErrorChunk (message : string).

Definition terminal (c : OutputChunk) : bool :=
  match c with Finish | ErrorChunk _ => true | _ => false end.

Definition is_start (c : OutputChunk) : bool :=
  match c with StartStep => true | _ => false end.

(** What one call of the model provider yields: a failure (or abort), or a
    turn of text deltas and requested tool calls (id, tool name, input). *)
Inductive ModelReply : Type :=
| Failure (message : string)
| Reply (deltas : list string) (calls : list (string * string * string)).

Record StepResult : Type := mkStep {
  step_parts : list Part
}.

(** [stepCountIs(n)]: the condition holds once [n] steps are recorded. *)
Definition stepCountIs (n : nat) (steps : list StepResult) : bool :=
  (length steps =? n)%nat.

Definition call_part (call : string * string * string) : Part :=
  let '(c, name, input) := call in ToolCallPart c name input.

Definition chunk_of (p : Part) : OutputChunk :=
  match p with
  | TextPart t => TextDelta t
  | ToolCallPart c name input => ToolCallEvent c name input
  | ToolResultPart c output e => ToolResultEvent c output e
  end.

Definition round_trips (chunks : list OutputChunk) : nat :=
  length (List.filter is_start chunks).

Section Streamer.

Variable model : list UIMessage -> ModelReply.
Variable tools : string -> option (string -> completion string).

Definition run_tool (call : string * string * string) : Part :=
  let '(c, name, input) := call in
  match tools name with
  | Some execute =>
    match execute input with
    | Normal output => ToolResultPart c output false
    | Throw e => ToolResultPart c (error_text e) true
    end
  | None => ToolResultPart c "Error: no such tool" true
  end.

(** Modelled from the spec: the step loop of the vendor's [streamText],
    which [onChatMessage] configures and does not contain.  Each round calls
    the model on the history so far and emits its text and tool-call events;
    the stream ends with a terminal chunk when the model fails, when the
    turn asks for no tool, or when the stop condition holds of the steps
    taken; otherwise the tools run, their results join the history and the
    next round starts.  [fuel] bounds the rounds the definition may unfold. *)
Fixpoint stream_from (fuel : nat) (stopWhen : list StepResult -> bool)
  (steps : list StepResult) (history : list UIMessage)
  : option (list OutputChunk) :=
  match fuel with
  | 0 => None
  | S fuel' =>
    match model history with
    | Failure message => Some [StartStep; ErrorChunk message]
    | Reply deltas calls =>
      let produced :=
        map TextPart deltas ++ map call_part calls ++ map run_tool calls in
      let steps' := steps ++ [mkStep produced] in
      let out := StartStep :: map chunk_of produced in
      if (length calls =? 0)%nat || stopWhen steps' then Some (out ++ [Finish])
      else
        match
          stream_from fuel' stopWhen steps'
            (history ++ [mkUIMessage EmptyString assistant produced None])
        with
        | Some rest => Some (out ++ rest)
        | None => None
        end
    end
  end.

End Streamer.

(** [onChatMessage]: the saved history is cleaned and its pending tool calls
    are processed; the streamer is then started on the result with all the
    tools and [stopWhen: stepCountIs(10)], and its chunks are merged into the
    response stream.  The system prompt, the choice of model and the
    conversion to model messages are part of [model]. *)
Definition onChatMessage
  (executions : string -> option (string -> completion string))
  (model : list UIMessage -> ModelReply)
  (allTools : string -> option (string -> completion string))
  (fuel : nat) (this : Session) : option (list OutputChunk) :=
  let processedMessages := resolvePending executions (messages this) in
  stream_from model allTools fuel (stepCountIs 10) [] processedMessages.

End Chat.

(** ** The worker's fetch entry point *)
Module Worker.
Import Json Runtime.

(** JavaScript's [!!v] for a string or undefined. *)
Definition truthy (v : option string) : bool :=
  match v with
  | None => false
  | Some EmptyString => false
  | Some _ => true
  end.

Definition KEY : string := "GOOGLE_GENERATIVE_AI_API_KEY".

Definition missing_key_message : string :=
  "GOOGLE_GENERATIVE_AI_API_KEY is not set, don't forget to set it locally in .dev.vars, and use `wrangler secret bulk .dev.vars` to upload it to production".

(** [Response.json({ success })] *)
Definition key_response (success : bool) : Response :=
  mkResponse (JsonBody (JObject [("success", JBool success)])) 200.

Definition check_path : string := "/check-open-ai-key".

Section Fetch.

(** The bindings of the worker, and [routeAgentRequest] of the agents
    package: a response, or null. *)
Variable Env : Type.
Variable routeAgentRequest : Request -> Env -> option Response.

(** [fetch(request, env, ctx)] with [process.env] as a finite map; the
    result is the response and the lines written by [console.error]. *)
Definition fetch (request : Request) (env : Env)
  (process_env : gmap string string) : Response * list string :=
  if String.eqb (pathname request) check_path then
    let hasOpenAIKey := truthy (process_env !! KEY) in
    (key_response hasOpenAIKey, [])
  else
    let errors :=
      if negb (truthy (process_env !! KEY)) then [missing_key_message] else []
    in
    match routeAgentRequest request env with
    | Some response => (response, errors)
    | None => (mkResponse (Text "Not found") 404, errors)
    end.

End Fetch.

End Worker.

(** ** WebSocket callbacks: onClose, onMessage *)
Module Socket.
Import Json Runtime.

(** A message is a string or binary data. *)
Inductive WSMessage : Type :=
| TextMessage (text : string)
| BinaryMessage (data : list Byte.byte).

(** A connection: its id and the state attached to it, if any. *)
Record Connection : Type := mkConnection {
  id : string;
  state : option json
}.

(** What [console.log] is given: one string, or a label and a message. *)
Inductive Logged : Type :=
| Line (text : string)
| Labelled (label : string) (message : WSMessage).

(** What leaves the agent.  A frame is the text [JSON.stringify] makes of a
    value and is kept as a tree denoting that value (see [Json]); [sent]
    pairs it with the id of the connection it was sent on, [broadcasts] are
    the frames handed to [this.broadcast]. *)
Record Hub : Type := mkHub {
  console : list Logged;
  sent : list (string * json);
  broadcasts : list json
}.

(** [v.name] for a value that came from JSON: the last member of that name
    of an object, undefined ([None]) otherwise. *)
Definition get_property (name : string) (v : json) : option json :=
  match v with
  | JObject members =>
    fold_left (fun found '(k, x) => if String.eqb k name then Some x else found)
              members None
  | _ => None
  end.

(** [v?.name]: undefined when [v] is undefined or null. *)
Definition optional_property (name : string) (v : option json)
  : option json :=
  match v with
  | None | Some JNull => None
  | Some x => get_property name x
  end.

(** [{ event: "user-left", userId }]; a member whose value is undefined is
    left out by [JSON.stringify]. *)
Definition user_left (userId : option json) : json :=
  JObject (("event", JString "user-left") ::
           match userId with
           | Some u => [("userId", u)]
           | None => []
           end).

(** [`Connection ${connection.id} closed: ${code} ${reason}`] *)
Definition closed_line (connection : Connection) (code : nat)
  (reason : string) : string :=
  "Connection " ++ id connection ++ " closed: "
  ++ DecimalString.NilZero.string_of_uint (Nat.to_uint code)
  ++ " " ++ reason.

Definition onClose (connection : Connection) (code : nat) (reason : string)
  (_wasClean : bool) (this : Hub) : completion unit * Hub :=
  (Normal tt,
   mkHub (console this ++ [Line (closed_line connection code reason)])
         (sent this)
         (broadcasts this
          ++ [user_left (optional_property "userId" (state connection))])).


End Socket.

(** ** A delivery scenario

    The example of the spec: events of type push under the id abc123.  The
    world outside the agent is the number of processing attempts made so
    far; [flaky] fails on the first attempt and succeeds from then on. *)
Module Scenario.
Import Json Runtime Sql.

Definition eventId : string := "abc123".

Definition reliable (_ : json) (attempts : nat) : completion unit * nat :=
  (Normal tt, S attempts).

Definition flaky (_ : json) (attempts : nat) : completion unit * nat :=
  match attempts with
  | 0 => (Throw (Rejected "downstream unavailable"), 1)
  | S _ => (Normal tt, S attempts)
  end.

(** A row of the events table under the id. *)
Definition push_row : Event :=
  mkEvent eventId
          (mkColumns (Some "push") None (Some "Push received") None None None
                     None (Some "2026-01-01T00:00:00Z")).



(** A keyed function that is injective in the body: the secret followed by
    the body. *)
Definition toy_mac (secret body : string) : string := secret ++ body.

Definition secret : string := "s3cret".

Definition fresh : Ingest.State nat :=
  Ingest.mkState (mkDb (Some []) true) [] 0.

Definition push (body : string) (signature : string) : Request :=
  mkRequest "POST" "/webhook"
            [("x-event-type", "push"); ("x-signature", signature)] body.

Definition verifier : string -> option string -> bool :=
  Verifier.verify toy_mac secret.

Definition signed_push : Request :=
  push "{}" (Verifier.sign toy_mac secret "{}").

Definition forged_push : Request := push "{}" "00".

Definition get_request : Request :=
  mkRequest "GET" "/webhook" [] EmptyString.

(** Two deliveries of the same event, each stretch of the first followed by
    the same stretch of the second. *)
Definition racing_pool : list (Ingest.Delivery) :=
  [Ingest.arrival (Some "push") (JObject []);
   Ingest.arrival (Some "push") (JObject [])].

Definition alternating : list nat := [0; 1; 0; 1; 0; 1].

(** A model that asks for the weather tool at every step, and a history
    whose last turn ends in a call nobody handles. *)
Definition always_calls (_ : list Chat.UIMessage) : Chat.ModelReply :=
  Chat.Reply ["Let me check."] [("call", "getWeather", "{}")].

Definition weather_tool (name : string)
  : option (string -> completion string) :=
  if String.eqb name "getWeather" then Some (fun _ => Normal "sunny")
  else None.

Definition no_handler (_ : string) : option (string -> completion string) :=
  None.

Definition question : Chat.UIMessage :=
  Chat.mkUIMessage "m1" Chat.user [Chat.TextPart "What is the weather?"] None.


Definition check_request : Request :=
  mkRequest "GET" Worker.check_path [] EmptyString.

Definition no_route (_ : Request) (_ : unit) : option Response := None.

(** An agent whose table holds a row under the id. *)
Definition stored : Ingest.State nat :=
  Ingest.mkState (mkDb (Some [push_row]) true) [] 1.


Definition alice : Socket.Connection :=
  Socket.mkConnection "c1" (Some (JObject [("userId", JString "alice")])).

Definition quiet : Socket.Hub := Socket.mkHub [] [] [].

End Scenario.

(** * Properties *)

(** ** The JSON reader never exhausts its budget *)
Module JsonFacts.
Import Json.

Lemma skip_ws_length s : length (skip_ws s) <= length s.
Proof.
  induction s as [|c r IH]; simpl; [lia|].
  destruct (is_ws c); simpl; lia.
Qed.

Lemma take_digits_length s d r :
  take_digits s = (d, r) -> length r <= length s.
Proof.
  revert d r; induction s as [|c s IH]; intros d r; simpl.
  - intros [= <- <-]; simpl; lia.
  - destruct (is_digit c).
    + destruct (take_digits s) as [d' r'] eqn:E.
      intros [= <- <-]. specialize (IH _ _ eq_refl). lia.
    + intros [= <- <-]; simpl; lia.
Qed.

Lemma parse_chars_sound : forall s acc,
  parse_chars s acc <> PFuel /\
  forall cs r, parse_chars s acc = POk cs r -> length r < length s.
Proof.
  intros s. remember (length s) as n eqn:Hn. revert s Hn.
  induction n as [n IH] using lt_wf_ind. intros s -> acc.
  destruct s as [|c r]; simpl; [split; [discriminate|intros; discriminate]|].
  destruct (Ascii.eqb c dquote).
  { split; [discriminate|]. intros cs r0 [= <- <-]. lia. }
  destruct (Ascii.eqb c "\"%char).
  - destruct r as [|e r']; [split; [discriminate|intros; discriminate]|].
    destruct (unescape e) as [d|].
    + destruct (IH (length r') ltac:(simpl; lia) r' eq_refl (d :: acc)) as [Hf Hl].
      split; [exact Hf|]. intros cs r0 H. apply Hl in H. simpl. lia.
    + destruct (Ascii.eqb e "u"%char); [|split; [discriminate|intros; discriminate]].
      destruct r' as [|h1 [|h2 [|h3 [|h4 r'']]]];
        try (split; [discriminate|intros; discriminate]).
      destruct (is_hex h1 && is_hex h2 && is_hex h3 && is_hex h4);
        [|split; [discriminate|intros; discriminate]].
      destruct (IH (length r'') ltac:(simpl; lia) r'' eq_refl (h4 :: h3 :: h2 :: h1 :: e :: c :: acc))
        as [Hf Hl].
      split; [exact Hf|]. intros cs r0 H. apply Hl in H. simpl. lia.
  - destruct (nat_of_ascii c <? 32)%nat; [split; [discriminate|intros; discriminate]|].
    destruct (IH (length r) ltac:(simpl; lia) r eq_refl (c :: acc)) as [Hf Hl].
    split; [exact Hf|]. intros cs r0 H. apply Hl in H. simpl. lia.
Qed.

Lemma parse_string_sound s :
  parse_string s <> PFuel /\
  forall str r, parse_string s = POk str r -> length r < length s.
Proof.
  unfold parse_string. destruct (parse_chars_sound s []) as [Hf Hl].
  destruct (parse_chars s []) as [cs r| |]; [|split; [discriminate|intros; discriminate]|congruence].
  split; [discriminate|]. intros str r0 [= <- <-]. eauto.
Qed.

Lemma parse_number_sound s :
  parse_number s <> PFuel /\
  forall x r, parse_number s = POk x r -> length r < length s.
Proof.
  unfold parse_number.
  set (p := match s with "-"%char :: r => (["-"%char], r) | _ => ([], s) end).
  assert (Hp : length (snd p) <= length s).
  { subst p. destruct s as [|c r]; simpl; [lia|].
    destruct (Ascii.eqb_spec c "-"%char) as [->|Hne]; simpl; [lia|].
    destruct c as [[] [] [] [] [] [] [] []]; simpl; try lia. }
  destruct p as [neg s1]. simpl in Hp.
  assert (Hi : forall i r1, parse_int s1 = POk i r1 -> length r1 < length s1).
  { unfold parse_int. destruct s1 as [|c r]; [discriminate|].
    destruct (Ascii.eqb c "0"%char); [intros i r1 [= <- <-]; simpl; lia|].
    destruct (is_digit c); [|discriminate].
    destruct (take_digits r) as [d r'] eqn:E. intros i r1 [= <- <-].
    apply take_digits_length in E. simpl; lia. }
  assert (Hfr : forall r1 f r2, parse_frac r1 = POk f r2 -> length r2 <= length r1).
  { intros r1 f r2. unfold parse_frac.
    destruct r1 as [|c r]; [intros [= <- <-]; lia|].
    destruct (Ascii.eqb_spec c "."%char) as [->|Hne].
    - destruct (take_digits r) as [d r'] eqn:E. apply take_digits_length in E.
      destruct d; [discriminate|]. intros [= <- <-]. simpl; lia.
    - destruct c as [[] [] [] [] [] [] [] []]; try (intros [= <- <-]; lia).
      congruence. }
  assert (He : forall r2 e r3, parse_exp r2 = POk e r3 -> length r3 <= length r2).
  { intros r2 e r3. unfold parse_exp.
    destruct r2 as [|c r]; [intros [= <- <-]; lia|].
    destruct (Ascii.eqb c "e"%char || Ascii.eqb c "E"%char); [|intros [= <- <-]; lia].
    set (q := match r with
              | c0 :: r1 => if Ascii.eqb c0 "+"%char || Ascii.eqb c0 "-"%char
                            then ([c0], r1) else ([], r)
              | [] => ([], r) end).
    assert (Hq : length (snd q) <= length r).
    { subst q. destruct r as [|c0 r1]; simpl; [lia|].
      destruct (Ascii.eqb c0 "+"%char || Ascii.eqb c0 "-"%char); simpl; lia. }
    destruct q as [sign r1]. simpl in Hq.
    destruct (take_digits r1) as [d r'] eqn:E. apply take_digits_length in E.
    destruct d; [discriminate|]. intros [= <- <-]. simpl; lia. }
  destruct (parse_int s1) as [i r1| |] eqn:Ei; try (split; [discriminate|intros; discriminate]).
  destruct (parse_frac r1) as [f r2| |] eqn:Ef; try (split; [discriminate|intros; discriminate]).
  destruct (parse_exp r2) as [e r3| |] eqn:Ee; try (split; [discriminate|intros; discriminate]).
  split; [discriminate|]. intros x r [= <- <-].
  specialize (Hi _ _ eq_refl). apply Hfr in Ef. apply He in Ee. lia.
Qed.

Ltac fuel_trivial := split; [intros _; discriminate | intros; discriminate].

Lemma parse_literal_sound word v s c r :
  s = c :: r -> word <> EmptyString ->
  parse_literal word v s <> PFuel /\
  forall x r0, parse_literal word v s = POk x r0 -> length r0 < length s.
Proof.
  intros -> Hw. unfold parse_literal.
  destruct word as [|a w]; [congruence|]. simpl.
  destruct (Ascii.eqb a c); [|split; [discriminate|intros; discriminate]].
  assert (H : forall p t t', strip_prefix p t = Some t' -> length t' <= length t).
  { induction p as [|x p IH]; intros t t'; simpl.
    - intros [= <-]; lia.
    - destruct t as [|y t]; [discriminate|].
      destruct (Ascii.eqb x y); [|discriminate].
      intros E. apply IH in E. simpl; lia. }
  destruct (strip_prefix (list_ascii_of_string w) r) as [t'|] eqn:E;
    [|split; [discriminate|intros; discriminate]].
  apply H in E. split; [discriminate|]. intros x r0 [= <- <-]. simpl; lia.
Qed.

Lemma parse_sound n :
  (forall s,
     (2 * length s + 1 <= n -> parse_value n s <> PFuel) /\
     (forall v r, parse_value n s = POk v r -> length r < length s)) /\
  (forall s acc,
     (2 * length s + 2 <= n -> parse_elements n s acc <> PFuel) /\
     (forall v r, parse_elements n s acc = POk v r -> length r < length s)) /\
  (forall s acc,
     (2 * length s + 2 <= n -> parse_members n s acc <> PFuel) /\
     (forall v r, parse_members n s acc = POk v r -> length r < length s)).
Proof.
  induction n as [|n (IHv & IHe & IHm)].
  { repeat split; simpl; intros; try lia; discriminate. }
  split; [|split].
  - (* parse_value *)
    intros s. simpl. destruct s as [|c r]; [fuel_trivial|].
    destruct (Ascii.eqb c "{"%char).
    { pose proof (skip_ws_length r) as Hw.
      destruct (skip_ws r) as [|c1 r'] eqn:Er; [fuel_trivial|].
      destruct (Ascii.eqb c1 "}"%char).
      - split; [intros _; discriminate|]. intros v r0 [= <- <-]. simpl in *; lia.
      - destruct (IHm (c1 :: r') []) as [Hf Hl]. split.
        + intros Hn. apply Hf. simpl in *; lia.
        + intros v r0 H. apply Hl in H. simpl in *; lia. }
    destruct (Ascii.eqb c "["%char).
    { pose proof (skip_ws_length r) as Hw.
      destruct (skip_ws r) as [|c1 r'] eqn:Er; [fuel_trivial|].
      destruct (Ascii.eqb c1 "]"%char).
      - split; [intros _; discriminate|]. intros v r0 [= <- <-]. simpl in *; lia.
      - destruct (IHe (c1 :: r') []) as [Hf Hl]. split.
        + intros Hn. apply Hf. simpl in *; lia.
        + intros v r0 H. apply Hl in H. simpl in *; lia. }
    destruct (Ascii.eqb c dquote).
    { destruct (parse_string_sound r) as [Hf Hl].
      destruct (parse_string r) as [str r'| |]; [|fuel_trivial|congruence].
      split; [intros _; discriminate|]. intros v r0 [= <- <-].
      specialize (Hl _ _ eq_refl). simpl; lia. }
    destruct (Ascii.eqb c "t"%char).
    { destruct (parse_literal_sound "true" (JBool true) (c :: r) c r eq_refl)
        as [Hf Hl]; [discriminate|]. split; [intros _; exact Hf|exact Hl]. }
    destruct (Ascii.eqb c "f"%char).
    { destruct (parse_literal_sound "false" (JBool false) (c :: r) c r eq_refl)
        as [Hf Hl]; [discriminate|]. split; [intros _; exact Hf|exact Hl]. }
    destruct (Ascii.eqb c "n"%char).
    { destruct (parse_literal_sound "null" JNull (c :: r) c r eq_refl)
        as [Hf Hl]; [discriminate|]. split; [intros _; exact Hf|exact Hl]. }
    destruct (parse_number_sound (c :: r)) as [Hf Hl].
    destruct (parse_number (c :: r)) as [x r'| |]; [|fuel_trivial|congruence].
    split; [intros _; discriminate|]. intros v r0 [= <- <-]. eauto.
  - (* parse_elements *)
    intros s acc. simpl. destruct (IHv s) as [Hvf Hvl].
    destruct (parse_value n s) as [v r| |] eqn:Ev.
    + specialize (Hvl _ _ eq_refl). pose proof (skip_ws_length r) as Hw.
      destruct (skip_ws r) as [|c r'] eqn:Er; [fuel_trivial|].
      destruct (Ascii.eqb c ","%char).
      * pose proof (skip_ws_length r') as Hw'.
        destruct (IHe (skip_ws r') (v :: acc)) as [Hf Hl]. split.
        -- intros Hn. apply Hf. simpl in *; lia.
        -- intros v0 r0 H. apply Hl in H. simpl in *; lia.
      * destruct (Ascii.eqb c "]"%char); [|fuel_trivial].
        split; [intros _; discriminate|]. intros v0 r0 [= <- <-]. simpl in *; lia.
    + fuel_trivial.
    + split; [|intros; discriminate]. intros Hn _. apply Hvf; [lia|reflexivity].
  - (* parse_members *)
    intros s acc. simpl. destruct s as [|c r]; [fuel_trivial|].
    destruct (Ascii.eqb c dquote); [|fuel_trivial].
    destruct (parse_string_sound r) as [Hsf Hsl].
    destruct (parse_string r) as [key r1| |]; [|fuel_trivial|congruence].
    specialize (Hsl _ _ eq_refl). pose proof (skip_ws_length r1) as Hw1.
    destruct (skip_ws r1) as [|c1 r2] eqn:Er1; [fuel_trivial|].
    destruct (Ascii.eqb c1 ":"%char); [|fuel_trivial].
    pose proof (skip_ws_length r2) as Hw2.
    destruct (IHv (skip_ws r2)) as [Hvf Hvl].
    destruct (parse_value n (skip_ws r2)) as [v r3| |] eqn:Ev.
    + specialize (Hvl _ _ eq_refl). pose proof (skip_ws_length r3) as Hw3.
      destruct (skip_ws r3) as [|c2 r4] eqn:Er3; [fuel_trivial|].
      destruct (Ascii.eqb c2 ","%char).
      * pose proof (skip_ws_length r4) as Hw4.
        destruct (IHm (skip_ws r4) ((key, v) :: acc)) as [Hf Hl]. split.
        -- intros Hn. apply Hf. simpl in *; lia.
        -- intros v0 r0 H. apply Hl in H. simpl in *; lia.
      * destruct (Ascii.eqb c2 "}"%char); [|fuel_trivial].
        split; [intros _; discriminate|]. intros v0 r0 [= <- <-]. simpl in *; lia.
    + fuel_trivial.
    + split; [|intros; discriminate]. intros Hn _.
      apply Hvf; [simpl in *; lia|reflexivity].
Qed.

(** [JSON_parse] answers [None] only for a text that is not JSON: the
    budget it starts with is never used up. *)
Lemma parse_text_budget s : parse_text s <> PFuel.
Proof.
  unfold parse_text.
  destruct (parse_sound (budget (skip_ws s))) as [Hv _].
  destruct (Hv (skip_ws s)) as [Hf _].
  destruct (parse_value (budget (skip_ws s)) (skip_ws s)) as [v r| |].
  - destruct (skip_ws r); discriminate.
  - discriminate.
  - exfalso. apply Hf; [unfold budget; lia|reflexivity].
Qed.

End JsonFacts.

(** ** Ingestion *)
Module IngestFacts.
Import Json Runtime Sql Ingest.

Lemma count_id_app key rows rows' :
  count_id key (rows ++ rows') = count_id key rows + count_id key rows'.
Proof.
  unfold count_id, select_id.
  rewrite List.filter_app, List.map_app, List.length_app. reflexivity.
Qed.

Lemma count_id_zero_free key rows :
  count_id key rows = 0 <-> primary_key_free key rows = true.
Proof.
  unfold count_id, select_id, primary_key_free.
  induction rows as [|e rows IH]; simpl; [tauto|].
  destruct (String.eqb (id e) key); simpl; [split; discriminate|exact IH].
Qed.

Lemma count_id_unique key rows :
  primary_key_unique rows -> count_id key rows <= 1.
Proof.
  unfold primary_key_unique, count_id, select_id.
  induction rows as [|e rows IH]; simpl; [lia|].
  intros Hnd. apply NoDup_cons in Hnd as [Hnotin Hnd].
  destruct (String.eqb_spec (id e) key) as [Heq|Hne]; simpl; [|auto].
  assert (length (map id (List.filter (fun e0 => String.eqb (id e0) key) rows)) = 0);
    [|lia].
  destruct (List.filter _ rows) as [|e' l] eqn:Ef; [reflexivity|exfalso].
  assert (Hin : List.In e' (List.filter (fun e0 => String.eqb (id e0) key) rows))
    by (rewrite Ef; left; reflexivity).
  apply List.filter_In in Hin as [Hin Hk]. apply String.eqb_eq in Hk.
  apply Hnotin. rewrite Heq, <- Hk. apply list_elem_of_In, List.in_map, Hin.
Qed.

Lemma insert_normal row rows rows' :
  insert row rows = Normal rows' ->
  rows' = rows ++ [row] /\ count_id (id row) rows = 0 /\
  not_null_ok (columns row) = true.
Proof.
  unfold insert. destruct (not_null_ok (columns row)); simpl; [|discriminate].
  destruct (primary_key_free (id row) rows) eqn:Hf; simpl; [|discriminate].
  intros [= <-]. apply count_id_zero_free in Hf. auto.
Qed.

(** The primary key at work: a row that [insert] accepts leaves the keys
    unique. *)
Lemma insert_unique row rows rows' :
  primary_key_unique rows -> insert row rows = Normal rows' ->
  primary_key_unique rows'.
Proof.
  intros Hu Hi. apply insert_normal in Hi as (-> & Hc & _).
  unfold primary_key_unique in *. rewrite List.map_app. simpl.
  apply NoDup_app. split; [exact Hu|]. split; [|apply NoDup_singleton].
  intros k Hk Hk'. apply list_elem_of_singleton in Hk'. subst k.
  apply list_elem_of_In, List.in_map_iff in Hk as (e & He & Hin).
  unfold count_id, select_id in Hc.
  assert (Hin' : List.In e (List.filter (fun e0 => String.eqb (id e0) (id row)) rows)).
  { apply List.filter_In. split; [exact Hin|]. apply String.eqb_eq, He. }
  destruct (List.filter _ rows); [destruct Hin'|discriminate].
Qed.

(** The column list of the INSERT of [handleEvent] names [id] and three
    dots, and three dots are no name: the text cannot be prepared. *)
Lemma insert_text_columns : column_names insert_text = ["id"; "..."].
Proof. reflexivity. Qed.

Lemma insert_text_not_prepared :
  prepare insert_text = Throw (SqlError syntax_error).
Proof. reflexivity. Qed.

Section Agent.

Variable W : Type.
Variable eventId : string.
Variable verifySignature : string -> option string -> bool.
Variable processPayload : json -> W -> completion unit * W.

Local Abbreviation handleEvent := (handleEvent W eventId processPayload).
Local Abbreviation onRequest :=
  (onRequest W eventId verifySignature processPayload).
Local Abbreviation skip_line := (skip_line eventId).

(** The INSERT of [handleEvent] throws whatever is bound and whatever the
    state, and leaves the state as it is. *)
Lemma sql_insert_refused bindings (s : State W) :
  sql_insert W insert_text bindings s = (Throw (SqlError syntax_error), s).
Proof. unfold sql_insert. rewrite insert_text_not_prepared. reflexivity. Qed.

(** [handleEvent] path by path. *)
Lemma handleEvent_paths type payload (s : State W) :
  handleEvent type payload s =
  match events (db s) with
  | None => (Throw (SqlError "no such table: events"), s)
  | Some rows =>
    if (0 <? count_id eventId rows)%nat then
      (Normal tt, mkState (db s) (console s ++ [skip_line]) (world s))
    else
      match processPayload payload (world s) with
      | (Throw e, w) => (Throw e, mkState (db s) (console s) w)
      | (Normal _, w) =>
        (Throw (SqlError syntax_error), mkState (db s) (console s) w)
      end
  end.
Proof.
  unfold Ingest.handleEvent, bind, sql_select_id, with_events, ret.
  destruct (events (db s)) as [rows|] eqn:Ev; [|reflexivity].
  fold (count_id eventId rows).
  destruct (0 <? count_id eventId rows)%nat; [reflexivity|].
  unfold await_processPayload.
  destruct (processPayload payload (world s)) as [[[]|e] w]; [|reflexivity].
  rewrite sql_insert_refused. reflexivity.
Qed.

(** No call of [handleEvent] changes the database. *)
Lemma handleEvent_db type payload (s : State W) :
  db (handleEvent type payload s).2 = db s.
Proof.
  rewrite handleEvent_paths.
  destruct (events (db s)) as [rows|]; [|reflexivity].
  destruct (0 <? count_id eventId rows)%nat; [reflexivity|].
  destruct (processPayload payload (world s)) as [[[]|e] w]; reflexivity.
Qed.

Lemma handleEvent_keys_unique type payload (s : State W) :
  keys_unique (db s) -> keys_unique (db (handleEvent type payload s).2).
Proof. rewrite handleEvent_db. auto. Qed.

Lemma handleEvent_returns_with_row type payload (s s' : State W) :
  handleEvent type payload s = (Normal tt, s') ->
  exists rows, events (db s') = Some rows /\ 0 < count_id eventId rows.
Proof.
  rewrite handleEvent_paths.
  destruct (events (db s)) as [rows|] eqn:Ev; [|discriminate].
  destruct (0 <? count_id eventId rows)%nat eqn:Hc.
  - intros [= <-]. simpl. exists rows. apply Nat.ltb_lt in Hc. auto.
  - destruct (processPayload payload (world s)) as [[[]|e] w]; discriminate.
Qed.

Lemma handleEvent_skip type payload (s : State W) rows :
  events (db s) = Some rows ->
  0 < count_id eventId rows ->
  handleEvent type payload s
    = (Normal tt, mkState (db s) (console s ++ [skip_line]) (world s)).
Proof.
  intros Ev Hc. rewrite handleEvent_paths, Ev.
  apply Nat.ltb_lt in Hc. rewrite Hc. reflexivity.
Qed.

(** C1.  What the code does with a first delivery.  The id is not stored
    and processing succeeds; the INSERT that follows is sent as a text that
    SQLite cannot prepare, so the call throws and stores nothing.  The second
    call is therefore no no-op: it processes the payload again and throws
    again.  After both calls the database is as before, no row stands under
    the id and nothing was logged as already processed. *)
Theorem first_delivery_is_never_stored type payload (s : State W)
    rows w1 w2 :
  events (db s) = Some rows ->
  count_id eventId rows = 0 ->
  processPayload payload (world s) = (Normal tt, w1) ->
  processPayload payload w1 = (Normal tt, w2) ->
  handleEvent type payload s
    = (Throw (SqlError syntax_error), mkState (db s) (console s) w1) /\
  handleEvent type payload (mkState (db s) (console s) w1)
    = (Throw (SqlError syntax_error), mkState (db s) (console s) w2).
Proof.
  intros Ev Hc Hp1 Hp2. split.
  - rewrite handleEvent_paths, Ev, Hc, Hp1. reflexivity.
  - rewrite handleEvent_paths. simpl. rewrite Ev, Hc, Hp2. reflexivity.
Qed.

(** C2.  What the code does when processing fails.  The call throws what
    processing threw and the database and console are as before: no row is
    inserted.  The retry is not skipped, processing runs again; but when it
    succeeds the INSERT throws, so the retry is not accepted either and the
    table still holds no row under the id. *)
Theorem failed_processing_then_retry type payload (s : State W)
    rows e w1 w2 :
  events (db s) = Some rows ->
  count_id eventId rows = 0 ->
  processPayload payload (world s) = (Throw e, w1) ->
  processPayload payload w1 = (Normal tt, w2) ->
  handleEvent type payload s = (Throw e, mkState (db s) (console s) w1) /\
  handleEvent type payload (mkState (db s) (console s) w1)
    = (Throw (SqlError syntax_error), mkState (db s) (console s) w2).
Proof.
  intros Ev Hc Hp1 Hp2. split.
  - rewrite handleEvent_paths, Ev, Hc, Hp1. reflexivity.
  - rewrite handleEvent_paths. simpl. rewrite Ev, Hc, Hp2. reflexivity.
Qed.

(** The unguarded [JSON.parse]: a signed POST whose body is not JSON makes
    [onRequest] throw, with the state untouched. *)
Lemma onRequest_bad_json request (s : State W) :
  method request = "POST" ->
  verifySignature (body request)
                  (headers_get "X-Signature" (headers request)) = true ->
  JSON_parse (body request) = None ->
  onRequest request s = (Throw (SyntaxError "JSON.parse"), s).
Proof.
  intros Hm Hv Hj. unfold Ingest.onRequest. rewrite Hm, Hv, Hj. reflexivity.
Qed.

(** C3.  The answers of [onRequest] in the code.  405 to a method other
    than POST; 401 to a POST whose signature does not verify; 200 to a
    verified POST with a JSON body whose event id is stored already (the
    duplicate is skipped).  A verified POST with a JSON body whose event id
    is not stored gets no answer: after processing, the INSERT throws and
    [onRequest] throws with it. *)
Theorem onRequest_answers request (s : State W) :
  (method request <> "POST" ->
   onRequest request s
     = (Normal (mkResponse (Text "Method not allowed") 405), s)) /\
  (method request = "POST" ->
   verifySignature (body request)
                   (headers_get "X-Signature" (headers request)) = false ->
   onRequest request s
     = (Normal (mkResponse (Text "Invalid signature") 401), s)) /\
  (forall payload rows,
   method request = "POST" ->
   verifySignature (body request)
                   (headers_get "X-Signature" (headers request)) = true ->
   JSON_parse (body request) = Some payload ->
   events (db s) = Some rows ->
   (0 < count_id eventId rows ->
    onRequest request s
      = (Normal (mkResponse (Text "OK") 200),
         mkState (db s)
           (console s
            ++ [("Event " ++ eventId ++ " already processed, skipping")%string])
           (world s))) /\
   (forall w,
    count_id eventId rows = 0 ->
    processPayload payload (world s) = (Normal tt, w) ->
    onRequest request s
      = (Throw (SqlError syntax_error), mkState (db s) (console s) w))).
Proof.
  unfold Ingest.onRequest. split; [|split].
  - intros Hm. apply String.eqb_neq in Hm. rewrite Hm. reflexivity.
  - intros Hm Hv. rewrite Hm, Hv. reflexivity.
  - intros payload rows Hm Hv Hj Ev. rewrite Hm, Hv, Hj. simpl.
    unfold bind. split.
    + intros Hc.
      rewrite (handleEvent_skip _ payload s rows Ev Hc). reflexivity.
    + intros w Hc Hp. rewrite handleEvent_paths, Ev, Hc, Hp. reflexivity.
Qed.

(** *** Interleaved deliveries *)

Local Abbreviation step := (step W eventId processPayload).
Local Abbreviation run := (run W eventId processPayload).

(** A stretch never changes the database. *)
Lemma step_db d (s : State W) : db (step d s).2 = db s.
Proof.
  unfold Ingest.step. destruct d as [ty p [| | |r]];
    rewrite ?sql_insert_refused; simpl.
  - unfold sql_select_id, with_events, ret.
    destruct (events (db s)) as [rows|]; [|reflexivity].
    destruct (0 <? length _)%nat; reflexivity.
  - unfold await_processPayload.
    destruct (processPayload p (world s)) as [[[]|e] w]; reflexivity.
  - reflexivity.
  - reflexivity.
Qed.

(** With no row under the id, no stretch completes a delivery normally. *)
Lemma step_not_accepted d (s : State W) rows :
  events (db s) = Some rows ->
  count_id eventId rows = 0 ->
  accepted_or_skipped d = false ->
  accepted_or_skipped (step d s).1 = false.
Proof.
  intros Ev Hc Hd. unfold Ingest.step.
  destruct d as [ty p [| | |r]]; rewrite ?sql_insert_refused; simpl.
  - unfold sql_select_id, with_events, ret. rewrite Ev.
    fold (count_id eventId rows). rewrite Hc. reflexivity.
  - unfold await_processPayload.
    destruct (processPayload p (world s)) as [[[]|e] w]; reflexivity.
  - reflexivity.
  - exact Hd.
Qed.

Lemma run_db schedule : forall pool (s : State W),
  db (run schedule pool s).2 = db s.
Proof.
  induction schedule as [|i rest IH]; intros pool s; [reflexivity|].
  simpl. destruct (pool !! i) as [d|]; [|apply IH].
  pose proof (step_db d s) as Hd. destruct (step d s) as [d' s'].
  simpl in Hd. rewrite IH. exact Hd.
Qed.

(** C4.  What the code does with concurrent deliveries.  Any number of
    deliveries that arrive for an id that is not stored, interleaved in any
    order at the await of [handleEvent], leave the table exactly as it was:
    every INSERT throws when its text is prepared, before the primary key is
    looked at, so no row is stored under the id and no delivery is
    accepted or skipped. *)
Theorem concurrent_deliveries_store_nothing schedule pool (s : State W)
    rows :
  Forall (fun d => d_pc d = AtSelect) pool ->
  events (db s) = Some rows ->
  count_id eventId rows = 0 ->
  events (db (run schedule pool s).2) = Some rows /\
  Forall (fun d => accepted_or_skipped d = false) (run schedule pool s).1 /\
  (forall d (s' : State W),
     d_pc d = AtInsert ->
     step d s' = (at_pc d (Done (Throw (SqlError syntax_error))), s')).
Proof.
  intros Hpool Ev Hc. split; [rewrite run_db; exact Ev|]. split.
  - assert (Hinit : Forall (fun d => accepted_or_skipped d = false) pool).
    { eapply Forall_impl; [exact Hpool|]. simpl. intros d Hd.
      unfold accepted_or_skipped. rewrite Hd. reflexivity. }
    clear Hpool. revert pool s Ev Hinit.
    induction schedule as [|i rest IH]; intros pool s Ev Hinit; [exact Hinit|].
    simpl. destruct (pool !! i) as [d|] eqn:Hd; [|apply IH; assumption].
    assert (Hdi : accepted_or_skipped d = false).
    { rewrite Forall_lookup in Hinit. exact (Hinit _ _ Hd). }
    pose proof (step_not_accepted d s rows Ev Hc Hdi) as Hn.
    pose proof (step_db d s) as Hdb.
    destruct (step d s) as [d' s']. simpl in *.
    apply IH; [rewrite Hdb; exact Ev|].
    apply Forall_insert; assumption.
  - intros d s' Hpc. unfold Ingest.step. rewrite Hpc.
    rewrite sql_insert_refused. reflexivity.
Qed.

(** *** Further properties of the handlers *)

(** X1.  Starting the agent again is harmless.  With the table in place,
    [onStart] keeps every stored row; a second run changes nothing; and a
    run of [onStart] before a delivery gives the outcome and the state of the
    same run after it: [handleEvent] and [onStart] commute. *)
Theorem onStart_is_harmless type payload (s : State W) rows :
  events (db s) = Some rows ->
  events (db (onStart W s).2) = Some rows /\
  onStart W (onStart W s).2 = (Normal tt, (onStart W s).2) /\
  handleEvent type payload (onStart W s).2
    = ((handleEvent type payload s).1,
       (onStart W (handleEvent type payload s).2).2).
Proof.
  intros Ev. split; [|split].
  - unfold onStart. simpl. rewrite Ev. reflexivity.
  - unfold onStart. simpl. reflexivity.
  - rewrite !handleEvent_paths. unfold onStart. simpl. rewrite Ev.
    destruct (0 <? count_id eventId rows)%nat; [simpl; rewrite Ev; reflexivity|].
    destruct (processPayload payload (world s)) as [[[]|e] w];
      simpl; rewrite Ev; reflexivity.
Qed.

(** X2.  [handleEvent] only ever appends: whether it returns or throws, the
    rows stored before are still there, in place and unchanged; at most one
    row is added, under the event id, and only by a call that returns. *)
Theorem handleEvent_append_only type payload (s : State W) :
  exists added,
    events (db (handleEvent type payload s).2)
      = (fun rows => rows ++ added) <$> events (db s) /\
    length added <= 1 /\
    Forall (fun e => id e = eventId) added /\
    (added <> [] -> (handleEvent type payload s).1 = Normal tt).
Proof.
  exists []. rewrite handleEvent_db.
  repeat split; [|simpl; lia|constructor|congruence].
  destruct (events (db s)); simpl; [rewrite List.app_nil_r|]; reflexivity.
Qed.

(** X3.  Once a row is stored under the id, every further delivery is
    skipped, whatever its type and payload: each call of a sequence returns,
    and the sequence leaves the database and the world as they are (no
    processing, no insert, no update) and writes one skip line a call. *)
Theorem stored_event_is_never_reprocessed
    (deliveries : list (option string * json)) (s : State W) rows :
  events (db s) = Some rows ->
  0 < count_id eventId rows ->
  fold_left (fun acc d => ((acc.1 ++ [(handleEvent d.1 d.2 acc.2).1]),
                           (handleEvent d.1 d.2 acc.2).2))
            deliveries ([], s)
  = (repeat (Normal tt) (length deliveries),
     mkState (db s) (console s ++ repeat skip_line (length deliveries))
             (world s)).
Proof.
  intros Ev Hc.
  assert (Hgen : forall ds outcomes (st : State W),
    events (db st) = Some rows ->
    fold_left (fun acc d => ((acc.1 ++ [(handleEvent d.1 d.2 acc.2).1]),
                             (handleEvent d.1 d.2 acc.2).2))
              ds (outcomes, st)
    = (outcomes ++ repeat (Normal tt) (length ds),
       mkState (db st) (console st ++ repeat skip_line (length ds))
               (world st))).
  { induction ds as [|[ty p] ds IH]; intros outcomes st Hst.
    - simpl. rewrite !List.app_nil_r. destruct st; reflexivity.
    - simpl. rewrite (handleEvent_skip ty p st rows Hst Hc). simpl.
      rewrite (IH (outcomes ++ [Normal tt])
                  (mkState (db st) (console st ++ [skip_line]) (world st))
                  Hst).
      simpl. rewrite <- !List.app_assoc. reflexivity. }
  apply (Hgen deliveries [] s Ev).
Qed.

(** X4.  A request that is not a POST, or whose signature does not verify,
    or whose body is not JSON, changes nothing: database, console and world
    are as before, the payload is not processed, and the answer is never
    200. *)
Theorem onRequest_rejected_changes_nothing request (s : State W) :
  method request <> "POST" \/
  verifySignature (body request)
                  (headers_get "X-Signature" (headers request)) = false \/
  JSON_parse (body request) = None ->
  (onRequest request s).2 = s /\
  forall r, (onRequest request s).1 = Normal r -> status r <> 200.
Proof.
  intros H. unfold Ingest.onRequest.
  destruct (String.eqb_spec (method request) "POST") as [Hm|Hm]; simpl.
  2:{ split; [reflexivity|]. intros r [= <-]. discriminate. }
  destruct (verifySignature _ _) eqn:Hv; simpl.
  2:{ split; [reflexivity|]. intros r [= <-]. discriminate. }
  destruct H as [H|[H|H]]; [contradiction|discriminate|].
  rewrite H. split; [reflexivity|]. discriminate.
Qed.

(** X5.  An answer of 200 is given only to a POST with a verified signature
    and a JSON body, and only with a row under the event id in the table:
    just inserted, or found there. *)
Theorem onRequest_ok_means_stored request (s s' : State W) r :
  onRequest request s = (Normal r, s') ->
  status r = 200 ->
  method request = "POST" /\
  verifySignature (body request)
                  (headers_get "X-Signature" (headers request)) = true /\
  (exists payload, JSON_parse (body request) = Some payload) /\
  exists rows, events (db s') = Some rows /\ 0 < count_id eventId rows.
Proof.
  unfold Ingest.onRequest.
  destruct (String.eqb_spec (method request) "POST") as [Hm|Hm]; simpl.
  2:{ intros [= <- _]. discriminate. }
  destruct (verifySignature _ _) eqn:Hv; simpl.
  2:{ intros [= <- _]. discriminate. }
  destruct (JSON_parse (body request)) as [payload|] eqn:Hj; [|discriminate].
  unfold bind.
  destruct (handleEvent _ payload s) as [[[]|e] s1] eqn:Hh; [|discriminate].
  intros [= <- <-] _. repeat split; eauto.
  eapply handleEvent_returns_with_row; eauto.
Qed.

(** X6.  No request stores an event: whatever the request, its signature
    and its body, and whether [onRequest] answers or throws, the database
    after it is the database before it.  A 200 is given only for an id that
    was stored already, and a new event is processed and then lost at the
    INSERT. *)
Theorem onRequest_never_stores request (s : State W) :
  db (onRequest request s).2 = db s /\
  forall payload rows w,
    method request = "POST" ->
    verifySignature (body request)
                    (headers_get "X-Signature" (headers request)) = true ->
    JSON_parse (body request) = Some payload ->
    events (db s) = Some rows ->
    count_id eventId rows = 0 ->
    processPayload payload (world s) = (Normal tt, w) ->
    world (onRequest request s).2 = w /\
    (onRequest request s).1 = Throw (SqlError syntax_error).
Proof.
  unfold Ingest.onRequest. split.
  - destruct (negb (String.eqb (method request) "POST")); [reflexivity|].
    destruct (negb (verifySignature _ _)); [reflexivity|].
    destruct (JSON_parse (body request)) as [payload|]; [|reflexivity].
    unfold bind.
    pose proof (handleEvent_db (headers_get "X-Event-Type" (headers request))
                               payload s) as Hdb.
    destruct (handleEvent _ payload s) as [[[]|e] s1]; exact Hdb.
  - intros payload rows w Hm Hv Hj Ev Hc Hp. rewrite Hm, Hv, Hj. simpl.
    unfold bind. rewrite handleEvent_paths, Ev, Hc, Hp. split; reflexivity.
Qed.

(** X7.  Unique keys are kept by every request, whatever its outcome: if no
    two rows share an id before [onRequest], none do after it. *)
Theorem onRequest_keeps_keys_unique request (s : State W) :
  keys_unique (db s) -> keys_unique (db (onRequest request s).2).
Proof.
  intros Hu. unfold Ingest.onRequest.
  destruct (negb (String.eqb (method request) "POST")); [exact Hu|].
  destruct (negb (verifySignature _ _)); [exact Hu|].
  destruct (JSON_parse (body request)) as [payload|]; [|exact Hu].
  unfold bind.
  pose proof (handleEvent_keys_unique
                (headers_get "X-Event-Type" (headers request)) payload s Hu)
    as Hu'.
  destruct (handleEvent _ payload s) as [[[]|e] s1]; exact Hu'.
Qed.

(** *** Further properties of interleaved deliveries *)

Lemma step_shape d (s : State W) :
  d_type (step d s).1 = d_type d /\ d_payload (step d s).1 = d_payload d.
Proof.
  unfold Ingest.step. destruct d as [ty p [| | |r]];
    rewrite ?sql_insert_refused; simpl.
  - destruct (sql_select_id W eventId s) as [[existing|e] s1]; [|auto].
    destruct (0 <? length existing)%nat; auto.
  - destruct (await_processPayload W processPayload p s) as [[[]|e] s1]; auto.
  - auto.
  - auto.
Qed.

(** X9.  Interleaved deliveries only ever append, and at most once: for
    every pool and schedule the rows stored before are still there, in
    place and unchanged; at most one row is added, under the event id, and
    none if a row under the id was there; and the deliveries keep their
    number, types and payloads. *)
Theorem run_append_only schedule : forall pool (s : State W),
  exists added,
    events (db (run schedule pool s).2)
      = (fun rows => rows ++ added) <$> events (db s) /\
    length added <= 1 /\
    Forall (fun e => id e = eventId) added /\
    (forall rows, events (db s) = Some rows -> 0 < count_id eventId rows ->
                  added = []) /\
    map d_type (run schedule pool s).1 = map d_type pool /\
    map d_payload (run schedule pool s).1 = map d_payload pool.
Proof.
  intros pool s. exists []. rewrite run_db.
  assert (Hshape : forall sch pl (st : State W),
            map d_type (run sch pl st).1 = map d_type pl /\
            map d_payload (run sch pl st).1 = map d_payload pl).
  { induction sch as [|i rest IH]; intros pl st; [auto|].
    simpl. destruct (pl !! i) as [d|] eqn:Hd; [|apply IH].
    pose proof (step_shape d st) as [Hty Hp].
    destruct (step d st) as [d' s1]. simpl in *.
    destruct (IH (<[i:=d']> pl) s1) as [H1 H2]. rewrite H1, H2.
    rewrite !list_fmap_insert, Hty, Hp.
    split; apply list_insert_id; rewrite list_lookup_fmap, Hd; reflexivity. }
  destruct (Hshape schedule pool s) as [H1 H2].
  repeat split; auto.
  destruct (events (db s)); simpl; [rewrite List.app_nil_r|]; reflexivity.
Qed.

End Agent.

Import Scenario.

Lemma first_delivery_is_never_stored_witness :
  events (db fresh) = Some [] /\
  count_id eventId [] = 0 /\
  reliable (JObject []) 0 = (Normal tt, 1) /\
  handleEvent nat eventId reliable (Some "push") (JObject []) fresh
    = (Throw (SqlError syntax_error), mkState (db fresh) [] 1) /\
  handleEvent nat eventId reliable (Some "push") (JObject [])
              (mkState (db fresh) [] 1)
    = (Throw (SqlError syntax_error), mkState (db fresh) [] 2).
Proof.
  do 3 (split; [reflexivity|]).
  apply (first_delivery_is_never_stored nat eventId reliable (Some "push")
           (JObject []) fresh [] 1 2); reflexivity.
Defined.

Lemma failed_processing_then_retry_witness :
  events (db fresh) = Some [] /\
  count_id eventId [] = 0 /\
  flaky (JObject []) 0 = (Throw (Rejected "downstream unavailable"), 1) /\
  flaky (JObject []) 1 = (Normal tt, 2) /\
  handleEvent nat eventId flaky (Some "push") (JObject []) fresh
    = (Throw (Rejected "downstream unavailable"), mkState (db fresh) [] 1) /\
  handleEvent nat eventId flaky (Some "push") (JObject [])
              (mkState (db fresh) [] 1)
    = (Throw (SqlError syntax_error), mkState (db fresh) [] 2).
Proof.
  do 4 (split; [reflexivity|]).
  apply (failed_processing_then_retry nat eventId flaky (Some "push")
           (JObject []) fresh [] (Rejected "downstream unavailable") 1 2);
    reflexivity.
Defined.

Lemma onRequest_answers_witness :
  (onRequest nat eventId verifier reliable get_request fresh).1
    = Normal (mkResponse (Text "Method not allowed") 405) /\
  (onRequest nat eventId verifier reliable forged_push fresh).1
    = Normal (mkResponse (Text "Invalid signature") 401) /\
  (onRequest nat eventId verifier reliable signed_push stored).1
    = Normal (mkResponse (Text "OK") 200) /\
  (onRequest nat eventId verifier reliable signed_push fresh).1
    = Throw (SqlError syntax_error).
Proof.
  destruct (onRequest_answers nat eventId verifier reliable get_request fresh)
    as (H405 & _ & _).
  destruct (onRequest_answers nat eventId verifier reliable forged_push fresh)
    as (_ & H401 & _).
  destruct (onRequest_answers nat eventId verifier reliable signed_push stored)
    as (_ & _ & Hstored).
  destruct (onRequest_answers nat eventId verifier reliable signed_push fresh)
    as (_ & _ & Hfresh).
  destruct (Hstored (JObject []) [push_row] eq_refl eq_refl eq_refl eq_refl)
    as (H200 & _).
  destruct (Hfresh (JObject []) [] eq_refl eq_refl eq_refl eq_refl)
    as (_ & Hthrow).
  rewrite H405 by discriminate.
  rewrite H401 by reflexivity.
  rewrite H200 by (vm_compute; lia).
  rewrite (Hthrow 1 eq_refl eq_refl).
  repeat split.
Defined.

Lemma concurrent_deliveries_store_nothing_witness :
  Forall (fun d => d_pc d = AtSelect) racing_pool /\
  events (db fresh) = Some [] /\
  count_id eventId [] = 0 /\
  events (db (run nat eventId reliable alternating racing_pool fresh).2)
    = Some [] /\
  map d_pc (run nat eventId reliable alternating racing_pool fresh).1
    = [Done (Throw (SqlError syntax_error));
       Done (Throw (SqlError syntax_error))].
Proof.
  assert (Hpool : Forall (fun d => d_pc d = AtSelect) racing_pool)
    by (repeat constructor).
  split; [exact Hpool|]. do 2 (split; [reflexivity|]).
  destruct (concurrent_deliveries_store_nothing nat eventId reliable
              alternating racing_pool fresh [] Hpool eq_refl eq_refl)
    as (Hev & _ & _).
  split; [exact Hev|reflexivity].
Defined.

Lemma onStart_is_harmless_witness :
  events (db stored) = Some [push_row] /\
  onStart nat (onStart nat stored).2 = (Normal tt, (onStart nat stored).2) /\
  handleEvent nat eventId reliable (Some "push") (JObject [])
              (onStart nat stored).2
    = (Normal tt, mkState (db stored) [skip_line eventId] 1).
Proof.
  split; [reflexivity|].
  destruct (onStart_is_harmless nat eventId reliable
              (Some "push") (JObject []) stored _ eq_refl) as (_ & H2 & H3).
  split; [exact H2|]. rewrite H3. reflexivity.
Defined.

Lemma stored_event_is_never_reprocessed_witness :
  events (db stored) = Some [push_row] /\
  0 < count_id eventId [push_row] /\
  fold_left
    (fun acc d =>
       ((acc.1 ++ [(handleEvent nat eventId flaky d.1 d.2 acc.2).1]),
        (handleEvent nat eventId flaky d.1 d.2 acc.2).2))
    [(Some "push", JObject []); (Some "issues", JArray [JNull])] ([], stored)
  = ([Normal tt; Normal tt],
     mkState (db stored) [skip_line eventId; skip_line eventId] 1).
Proof.
  assert (H : 0 < count_id eventId [push_row]) by (vm_compute; lia).
  split; [reflexivity|]. split; [exact H|].
  apply (stored_event_is_never_reprocessed nat eventId flaky
           [(Some "push", JObject []); (Some "issues", JArray [JNull])]
           stored _ eq_refl H).
Defined.

Lemma onRequest_rejected_changes_nothing_witness :
  verifier (body forged_push)
           (headers_get "X-Signature" (headers forged_push)) = false /\
  (onRequest nat eventId verifier reliable forged_push fresh).2 = fresh.
Proof.
  split; [reflexivity|].
  apply (onRequest_rejected_changes_nothing nat eventId verifier reliable
           forged_push fresh).
  right. left. reflexivity.
Defined.

Lemma onRequest_ok_means_stored_witness :
  onRequest nat eventId verifier reliable signed_push stored
    = (Normal (mkResponse (Text "OK") 200),
       mkState (db stored) [skip_line eventId] 1) /\
  exists rows,
    events (db (mkState (db stored) [skip_line eventId] 1)) = Some rows /\
    0 < count_id eventId rows.
Proof.
  split; [reflexivity|].
  apply (onRequest_ok_means_stored nat eventId verifier reliable
           signed_push stored (mkState (db stored) [skip_line eventId] 1)
           (mkResponse (Text "OK") 200));
    reflexivity.
Defined.

Lemma onRequest_never_stores_witness :
  db (onRequest nat eventId verifier reliable signed_push fresh).2 = db fresh /\
  world (onRequest nat eventId verifier reliable signed_push fresh).2 = 1 /\
  (onRequest nat eventId verifier reliable signed_push fresh).1
    = Throw (SqlError syntax_error).
Proof.
  destruct (onRequest_never_stores nat eventId verifier reliable signed_push
              fresh) as (Hdb & Hnew).
  split; [exact Hdb|].
  apply (Hnew (JObject []) [] 1); reflexivity.
Defined.

Lemma onRequest_keeps_keys_unique_witness :
  keys_unique (db stored) /\
  keys_unique (db (onRequest nat eventId verifier reliable signed_push
                             stored).2).
Proof.
  assert (H : keys_unique (db stored)) by (repeat constructor; set_solver).
  split; [exact H|].
  apply (onRequest_keeps_keys_unique nat eventId verifier reliable
           signed_push stored H).
Defined.

End IngestFacts.

(** ** Signature verification *)
Module VerifierFacts.
Import Verifier.

Lemma diff_bits_zero a : forall b acc,
  String.length a = String.length b ->
  (diff_bits a b acc = 0%N <-> acc = 0%N /\ a = b).
Proof.
  induction a as [|x a IH]; intros [|y b] acc; simpl; try discriminate.
  - intros _. tauto.
  - intros [= Hlen]. rewrite (IH b _ Hlen), N.lor_eq_0_iff. split.
    + intros [[Hacc Hx] ->]. split; [exact Hacc|].
      apply N.lxor_eq in Hx.
      rewrite <- (ascii_N_embedding x), <- (ascii_N_embedding y), Hx.
      reflexivity.
    + intros [Hacc [= -> ->]]. rewrite N.lxor_nilpotent. auto.
Qed.

(** The constant-time comparison decides equality. *)
Lemma ct_eq_true a b : ct_eq a b = true <-> a = b.
Proof.
  unfold ct_eq. rewrite andb_true_iff, Nat.eqb_eq, N.eqb_eq. split.
  - intros [Hlen Hd]. apply (diff_bits_zero a b 0%N Hlen) in Hd. tauto.
  - intros ->. split; [reflexivity|].
    apply (diff_bits_zero b b 0%N eq_refl). auto.
Qed.













End VerifierFacts.

(** ** A signed body that is not JSON *)
Module RequestFacts.
Import Json Runtime Sql Ingest Verifier.

(** C10.  Whatever the MAC and the secret, there is a POST request whose
    body is not JSON and whose signature verifies; [onRequest] throws the
    parser's SyntaxError on it, and so returns no response at all, neither
    200 nor 401 nor 405. *)
Theorem onRequest_throws_on_signed_non_json (W : Type) (eventId : string)
    (mac : string -> string -> string) (secret : string)
    (processPayload : json -> W -> completion unit * W) (s : State W) :
  exists request,
    method request = "POST" /\
    JSON_parse (body request) = None /\
    verify mac secret (body request)
           (headers_get "X-Signature" (headers request)) = true /\
    onRequest W eventId (verify mac secret) processPayload request s
      = (Throw (SyntaxError "JSON.parse"), s).
Proof.
  exists (mkRequest "POST" "/" [("x-signature", sign mac secret "{")] "{").
  assert (Hv : verify mac secret "{" (Some (sign mac secret "{")) = true)
    by (apply VerifierFacts.ct_eq_true; reflexivity).
  repeat split; try reflexivity; try exact Hv.
  apply IngestFacts.onRequest_bad_json; [reflexivity|exact Hv|reflexivity].
Qed.

End RequestFacts.

(** ** The conversation *)
Module ChatFacts.
Import Runtime Chat.

(** C8.  [executeTask] saves the history it found with one turn added at
    the end: a user turn whose single text part names the task.  Every turn
    saved before is still there, at its position and unchanged. *)
Theorem executeTask_appends_one_user_turn {Schedule : Type} description
    (_task : Schedule) fresh now this :
  exists turn,
    messages (executeTask description _task fresh now this)
      = messages this ++ [turn] /\
    role turn = user /\
    parts turn = [TextPart ("Running scheduled task: " ++ description)] /\
    length (messages (executeTask description _task fresh now this))
      = S (length (messages this)) /\
    forall i m,
      messages this !! i = Some m ->
      messages (executeTask description _task fresh now this) !! i = Some m.
Proof.
  eexists. unfold executeTask, saveMessages. simpl.
  split; [reflexivity|]. repeat split.
  - rewrite List.length_app. simpl. lia.
  - intros i m Hi. apply lookup_app_l_Some. exact Hi.
Qed.

Section Continuation.

Variable executions : string -> option (string -> completion string).

Local Abbreviation resolve_part := (resolve_part executions).
Local Abbreviation resolvePending := (resolvePending executions).










End Continuation.

Section Streamer.

Variable model : list UIMessage -> ModelReply.
Variable tools : string -> option (string -> completion string).

Local Abbreviation stream_from := (stream_from model tools).

Lemma round_trips_app a b : round_trips (a ++ b) = round_trips a + round_trips b.
Proof. unfold round_trips. rewrite List.filter_app, List.length_app. reflexivity. Qed.

Lemma round_trips_parts ps : round_trips (map chunk_of ps) = 0.
Proof.
  unfold round_trips. induction ps as [|p ps IH]; [reflexivity|].
  simpl. destruct p; simpl; exact IH.
Qed.

(** More fuel does not change a stream that was produced. *)
Lemma stream_from_more_fuel fuel : forall stop steps history chunks,
  stream_from fuel stop steps history = Some chunks ->
  stream_from (S fuel) stop steps history = Some chunks.
Proof.
  induction fuel as [|fuel IH]; intros stop steps history chunks; [discriminate|].
  intros H. simpl in H. cbn [Chat.stream_from].
  destruct (model history) as [msg|deltas calls]; [exact H|].
  destruct ((length calls =? 0)%nat || stop _); [exact H|].
  destruct (stream_from fuel stop _ _) as [rest|] eqn:E; [|discriminate].
  apply IH in E. cbn [Chat.stream_from] in E. rewrite E. exact H.
Qed.

Lemma stream_from_fuel_monotone fuel fuel' stop steps history chunks :
  fuel <= fuel' ->
  stream_from fuel stop steps history = Some chunks ->
  stream_from fuel' stop steps history = Some chunks.
Proof.
  induction 1 as [|fuel' _ IH]; [auto|].
  intros H. apply stream_from_more_fuel, IH, H.
Qed.

Lemma parts_not_terminal ps :
  Forall (fun c => terminal c = false) (map chunk_of ps).
Proof.
  induction ps as [|p ps IH]; simpl; constructor; [destruct p; reflexivity|exact IH].
Qed.

(** With the stop condition of [onChatMessage], the rounds left are those
    up to ten; the stream ends in its only terminal chunk. *)
Lemma stream_from_bounded fuel : forall steps history,
  length steps < 10 -> 10 <= length steps + fuel ->
  exists init last,
    stream_from fuel (stepCountIs 10) steps history = Some (init ++ [last]) /\
    terminal last = true /\
    Forall (fun c => terminal c = false) init /\
    round_trips (init ++ [last]) + length steps <= 10.
Proof.
  induction fuel as [|fuel IH]; intros steps history Hlt Hge; [lia|].
  cbn [Chat.stream_from].
  destruct (model history) as [msg|deltas calls].
  { exists [StartStep], (ErrorChunk msg). repeat split.
    - repeat constructor.
    - unfold round_trips. simpl. lia. }
  set (produced :=
         map TextPart deltas ++ map call_part calls ++ map (run_tool tools) calls).
  destruct ((length calls =? 0)%nat || stepCountIs 10 (steps ++ [mkStep produced]))
    eqn:Hstop.
  - exists (StartStep :: map chunk_of produced), Finish. repeat split.
    + constructor; [reflexivity|apply parts_not_terminal].
    + rewrite round_trips_app.
      change (StartStep :: map chunk_of produced)
        with ([StartStep] ++ map chunk_of produced).
      rewrite round_trips_app, round_trips_parts. unfold round_trips. simpl. lia.
  - apply orb_false_iff in Hstop as [_ Hcount].
    unfold stepCountIs in Hcount. apply Nat.eqb_neq in Hcount.
    rewrite List.length_app in Hcount. simpl in Hcount.
    destruct (IH (steps ++ [mkStep produced])
                 (history ++ [mkUIMessage EmptyString assistant produced None]))
      as (init & last & Hs & Ht & Hinit & Hr).
    { rewrite List.length_app. simpl. lia. }
    { rewrite List.length_app. simpl. lia. }
    rewrite Hs. exists ((StartStep :: map chunk_of produced) ++ init), last.
    rewrite <- List.app_assoc. repeat split; [exact Ht| |].
    + apply Forall_app. split; [|exact Hinit].
      constructor; [reflexivity|apply parts_not_terminal].
    + rewrite round_trips_app.
      change (StartStep :: map chunk_of produced)
        with ([StartStep] ++ map chunk_of produced).
      rewrite round_trips_app, round_trips_parts.
      rewrite List.length_app in Hr. simpl in Hr.
      unfold round_trips at 1. simpl. lia.
Qed.

End Streamer.

(** C7.  For every saved history, model and tool set the stream of
    [onChatMessage] is produced (a budget of ten rounds suffices, and a
    larger one changes nothing); it ends in a terminal chunk, the only one
    of the stream; and it holds at most ten model/tool round-trips, whatever
    the model asks for at each step. *)
Theorem stream_stops_within_ten_round_trips executions model allTools this :
  exists init last,
    (forall fuel, 10 <= fuel ->
       onChatMessage executions model allTools fuel this
         = Some (init ++ [last])) /\
    terminal last = true /\
    Forall (fun c => terminal c = false) init /\
    round_trips (init ++ [last]) <= 10.
Proof.
  destruct (stream_from_bounded model allTools 10 []
              (resolvePending executions (messages this)))
    as (init & last & Hs & Ht & Hinit & Hr); [simpl; lia|simpl; lia|].
  exists init, last. repeat split; [|exact Ht|exact Hinit|simpl in Hr; lia].
  intros fuel Hf. unfold onChatMessage.
  eapply stream_from_fuel_monotone; [exact Hf|exact Hs].
Qed.

Import Scenario.


Lemma stream_stops_within_ten_round_trips_witness :
  exists chunks,
    onChatMessage no_handler always_calls weather_tool 10
                  (mkSession [question]) = Some chunks /\
    round_trips chunks <= 10 /\
    round_trips chunks = 10.
Proof.
  destruct (stream_stops_within_ten_round_trips no_handler always_calls
              weather_tool (mkSession [question]))
    as (init & last & Hs & _ & _ & Hr).
  exists (init ++ [last]). split; [apply Hs; lia|]. split; [exact Hr|].
  assert (Hten : option_map round_trips
                   (onChatMessage no_handler always_calls weather_tool 10
                                  (mkSession [question])) = Some 10)
    by (vm_compute; reflexivity).
  rewrite (Hs 10 (le_n 10)) in Hten. injection Hten as Hten. exact Hten.
Defined.

(** The turn [executeTask] makes of a task. *)
Lemma executeTask_messages {Schedule : Type} description (_task : Schedule)
    fresh now this :
  messages (executeTask description _task fresh now this)
  = messages this
    ++ [mkUIMessage fresh user
          [TextPart ("Running scheduled task: " ++ description)]
          (Some (mkMetadata now))].
Proof. reflexivity. Qed.

(** X13.  Tasks executed one after the other leave their turns in the
    history in the order of execution, after the turns that were there: the
    history grows by exactly one user turn a task. *)
Theorem executeTask_sequence {Schedule : Type}
    (tasks : list (string * Schedule * string * nat)) : forall this,
  messages
    (fold_left (fun st t => executeTask t.1.1.1 t.1.1.2 t.1.2 t.2 st) tasks this)
  = messages this
    ++ map (fun t => mkUIMessage t.1.2 user
                       [TextPart ("Running scheduled task: " ++ t.1.1.1)]
                       (Some (mkMetadata t.2)))
           tasks.
Proof.
  induction tasks as [|t tasks IH]; intros this; simpl.
  - rewrite List.app_nil_r. reflexivity.
  - rewrite IH, executeTask_messages, <- List.app_assoc. reflexivity.
Qed.

End ChatFacts.

(** ** The fetch entry point *)
Module WorkerFacts.
Import Json Runtime Worker.

Lemma truthy_false v :
  truthy v = false <-> v = None \/ v = Some EmptyString.
Proof.
  destruct v as [[|c r]|]; simpl; split; auto; try discriminate;
    intros [H|H]; discriminate.
Qed.

(** The key counts as missing for [fetch] also when it is set to the empty
    string: the endpoint then answers success = false although the key is
    set. *)
Lemma check_key_false_when_set_but_empty :
  ~ (forall process_env : gmap string string,
       (fetch unit Scenario.no_route Scenario.check_request tt process_env).1
         = key_response false
       <-> process_env !! KEY = None).
Proof.
  intros H.
  specialize (H {[ KEY := EmptyString ]}).
  rewrite lookup_singleton_eq in H.
  assert (Some EmptyString = @None string) as E; [|discriminate].
  apply H. unfold fetch. simpl. rewrite lookup_singleton_eq. reflexivity.
Qed.

Section Fetch.

Variable Env : Type.
Variable routeAgentRequest : Request -> Env -> option Response.

Local Abbreviation fetch := (fetch Env routeAgentRequest).

(** C9, as the code has it.  The key is missing for [fetch] when it is unset
    or set to the empty string.  On /check-open-ai-key the answer is
    success = false exactly in that case; on every other path the missing
    key is written to the error console, and nothing is written when the key
    is there. *)
Theorem fetch_reports_missing_key request env
    (process_env : gmap string string) :
  let missing :=
    process_env !! KEY = None \/ process_env !! KEY = Some EmptyString in
  (pathname request = check_path ->
   exists success,
     fetch request env process_env = (key_response success, []) /\
     (success = false <-> missing)) /\
  (pathname request <> check_path ->
   (missing ->
    (fetch request env process_env).2 = [missing_key_message]) /\
   (~ missing ->
    (fetch request env process_env).2 = [])).
Proof.
  intros missing. unfold Worker.fetch. split.
  - intros ->. rewrite String.eqb_refl.
    exists (truthy (process_env !! KEY)). split; [reflexivity|].
    apply truthy_false.
  - intros Hne. apply String.eqb_neq in Hne. rewrite Hne. split.
    + intros Hm. apply truthy_false in Hm. rewrite Hm. simpl.
      destruct (routeAgentRequest request env); reflexivity.
    + intros Hm. destruct (truthy (process_env !! KEY)) eqn:Ht.
      * simpl. destruct (routeAgentRequest request env); reflexivity.
      * apply truthy_false in Ht. contradiction.
Qed.

End Fetch.

Lemma fetch_reports_missing_key_witness :
  (fetch unit Scenario.no_route Scenario.check_request tt ∅
     = (key_response false, [])) /\
  (fetch unit Scenario.no_route
         (mkRequest "GET" "/agents/chat" [] EmptyString) tt ∅).2
     = [missing_key_message].
Proof.
  destruct (fetch_reports_missing_key unit Scenario.no_route
              Scenario.check_request tt ∅) as (Hcheck & _).
  destruct (fetch_reports_missing_key unit Scenario.no_route
              (mkRequest "GET" "/agents/chat" [] EmptyString) tt ∅)
    as (_ & Hother).
  split.
  - destruct (Hcheck eq_refl) as (success & Hf & Hiff).
    rewrite Hf. f_equal. f_equal. apply Hiff. left. apply lookup_empty.
  - apply Hother; [discriminate|]. left. apply lookup_empty.
Defined.

End WorkerFacts.

(** ** The WebSocket callbacks *)
Module SocketFacts.
Import Json Runtime Socket.


(** X17.  [onClose] never throws and sends nothing on a connection; it logs
    one line and broadcasts one frame, whose event is user-left and whose
    userId is the one of the state of the closed connection: read back from
    the frame when the state has one, and absent from it when the
    connection has no state, a null state or a state without userId.
    Whether the close was clean makes no difference. *)
Theorem onClose_announces_departure connection code reason wasClean
    (this : Hub) :
  exists frame,
    onClose connection code reason wasClean this
      = (Normal tt,
         mkHub (console this ++ [Line (closed_line connection code reason)])
               (sent this) (broadcasts this ++ [frame])) /\
    get_property "event" frame = Some (JString "user-left") /\
    get_property "userId" frame
      = optional_property "userId" (state connection) /\
    (optional_property "userId" (state connection) = None ->
     frame = JObject [("event", JString "user-left")]) /\
    onClose connection code reason (negb wasClean) this
      = onClose connection code reason wasClean this.
Proof.
  unfold onClose. eexists. split; [reflexivity|].
  unfold user_left.
  destruct (optional_property "userId" (state connection)) as [u|];
    repeat split; try reflexivity; discriminate.
Qed.

Lemma onClose_announces_departure_witness :
  optional_property "userId" (state Scenario.alice) = Some (JString "alice") /\
  broadcasts (onClose Scenario.alice 1000 "bye" true Scenario.quiet).2
    = [JObject [("event", JString "user-left");
                ("userId", JString "alice")]] /\
  optional_property "userId" (state (mkConnection "c2" (Some JNull))) = None /\
  broadcasts (onClose (mkConnection "c2" (Some JNull)) 1006 EmptyString false
                      Scenario.quiet).2
    = [JObject [("event", JString "user-left")]].
Proof.
  split; [reflexivity|].
  destruct (onClose_announces_departure Scenario.alice 1000 "bye" true
              Scenario.quiet) as (frame & Hc & _ & Hu & _).
  destruct (onClose_announces_departure (mkConnection "c2" (Some JNull)) 1006
              EmptyString false Scenario.quiet) as (frame2 & Hc2 & _ & _ & Hn & _).
  specialize (Hn eq_refl). subst frame2.
  assert (Hf : frame = JObject [("event", JString "user-left");
                                ("userId", JString "alice")]).
  { apply (f_equal (fun r => broadcasts r.2)) in Hc. simpl in Hc.
    injection Hc as Hc. symmetry. exact Hc. }
  rewrite Hc, Hc2, Hf. repeat split.
Defined.


End SocketFacts.
